(** * ActiveDirectoryPlugin (src/lib/index.js): a shallow embedding

    The plugin is a JavaScript class whose methods read and write the
    instance fields ([_user], [_activeRenewals], the two callback tables,
    ...) and the browser's Web Storage.  The embedding keeps that shape:

    - JavaScript strings are [string]s, one [ascii] per code unit (code
      units above 255 are outside the model);
    - objects used as dictionaries are [gmap string _] (keys that shadow
      a member of [Object.prototype] are outside the model);
    - the instance fields and the two Web Storage areas form the record
      [state]; methods are state-passing functions that end in [Return]
      or in [Throw] (an exception leaving the method);
    - the language built-ins the methods call but do not define
      ([toLowerCase], [encodeURIComponent], string-to-number coercion,
      [atob] + [JSON.parse], ...) and the facts of the hosting window
      (clock, [window.parent], usable storage) are the fields of the
      class [Host]; every theorem holds for every host.

    Logging ([info], [warn], [verbose], ...) prints to the console and is
    left out where it logs text.  Where it logs a value that a caller of
    the plugin threw, building the log line converts that value to a
    string, which can raise; that one place ([warn] in the dispatcher of
    [registerCallback]) is modelled. *)

From Stdlib Require Import ZArith Ascii String List Bool Lia DecimalString.
From stdpp Require Import base option gmap strings list fin_maps pretty.

Local Open Scope Z_scope.
Local Open Scope string_scope.

(** String concatenation is JavaScript's [+] on strings; let [simpl]
    compute it on literals. *)
#[local] Arguments String.append !_ _ / : simpl nomatch.

(* ===================================================================== *)
(** ** Strings as JavaScript uses them                                    *)
(* ===================================================================== *)

Module Js.

(** [s.startsWith(p)], also the test behind a regular expression
    anchored with [^] on a literal. *)
Fixpoint startsWith (p s : string) : bool :=
  match p, s with
  | EmptyString, _ => true
  | String a p', String b s' => Ascii.eqb a b && startsWith p' s'
  | String _ _, EmptyString => false
  end.

(** First index of [pat] in [s] counted from [i], or [-1]. *)
Fixpoint indexOf_from (i : Z) (pat s : string) : Z :=
  if startsWith pat s then i
  else match s with
       | EmptyString => -1
       | String _ s' => indexOf_from (i + 1) pat s'
       end.

(** [s.indexOf(pat)] *)
Definition indexOf (s pat : string) : Z := indexOf_from 0 pat s.

(** [s.split(c)] for a one-character separator [c]. *)
Fixpoint split_char_go (c : ascii) (cur s : string) : list string :=
  match s with
  | EmptyString => [cur]
  | String a s' =>
      if Ascii.eqb a c then cur :: split_char_go c "" s'
      else split_char_go c (cur +:+ String a "") s'
  end.

Definition split_char (c : ascii) (s : string) : list string :=
  split_char_go c "" s.

(** [s.split('||')]: the cache delimiter has two characters; a lone bar
    stays in its segment. *)
Fixpoint split_bars_go (cur s : string) : list string :=
  match s with
  | EmptyString => [cur]
  | String "|" (String "|" s') => cur :: split_bars_go "" s'
  | String a s' => split_bars_go (cur +:+ String a "") s'
  end.

Definition split_bars (s : string) : list string := split_bars_go "" s.

(** [arr.join(sep)] on strings. *)
Fixpoint join (sep : string) (l : list string) : string :=
  match l with
  | [] => ""
  | [x] => x
  | x :: l' => x +:+ sep +:+ join sep l'
  end.

(** [s.substring(n)] *)
Fixpoint drop (n : nat) (s : string) : string :=
  match n, s with
  | O, _ => s
  | S n', String _ s' => drop n' s'
  | S _, EmptyString => ""
  end.

Definition substring_from (n : Z) (s : string) : string :=
  drop (Z.to_nat n) s.

(** [s.length] *)
Definition length (s : string) : Z := Z.of_nat (String.length s).

(** The class [\s] of regular expressions, on code units below 256:
    TAB, LF, VT, FF, CR, space and NBSP. *)
Definition is_space (c : ascii) : bool :=
  let n := N_of_ascii c in
  ((9 <=? n) && (n <=? 13) || (n =? 32) || (n =? 160))%N.

End Js.

(* ===================================================================== *)
(** ** Identity Token Codec: [_decodeJwt]                                 *)
(* ===================================================================== *)

(** [_isEmpty(str)] on a string: [!str || 0 === str.length]. *)
Definition _isEmpty (str : string) : bool :=
  match str with EmptyString => true | _ => false end.

(** The object [{header, JWSPayload, JWSSig}] built by [_decodeJwt]. *)
Record crackedToken := CrackedToken {
  header : string;
  JWSPayload : string;
  JWSSig : string
}.

(** Membership in the character class "neither a dot nor white space",
    the class all three groups of the token expression repeat. *)
Definition seg_char (c : ascii) : bool :=
  negb (Ascii.eqb c "." || Js.is_space c).

(** A greedy repetition of that class: the longest prefix of
    [seg_char]s, and the rest. *)
Fixpoint span_seg (s : string) : string * string :=
  match s with
  | EmptyString => ("", "")
  | String c r =>
      if seg_char c
      then let '(a, b) := span_seg r in (String c a, b)
      else ("", s)
  end.

(** [_decodeJwt(jwtToken)]: the match of [idTokenPartsRegex], which is
    anchored at both ends and reads: group 1, zero or more [seg_char]s; a
    dot; group 2, one or more [seg_char]s; a dot; group 3, zero or more
    [seg_char]s.  The class excludes the dot that follows each group, so
    the greedy match is the only one and the expression is run as a
    scanner; [None] is the [null] result. *)
Definition _decodeJwt (jwtToken : string) : option crackedToken :=
  if _isEmpty jwtToken then None
  else
    let '(h, r1) := span_seg jwtToken in
    match r1 with
    | String "." r1' =>
        let '(p, r2) := span_seg r1' in
        if _isEmpty p then None
        else match r2 with
             | String "." r2' =>
                 let '(g, r3) := span_seg r2' in
                 match r3 with
                 | EmptyString => Some (CrackedToken h p g)
                 | _ => None
                 end
             | _ => None
             end
    | _ => None
    end.

(** Every character of [s] is a [seg_char]. *)
Fixpoint seg_ok (s : string) : bool :=
  match s with
  | EmptyString => true
  | String c r => seg_char c && seg_ok r
  end.

(** The decode rule in the specification's words: split on the dot, and
    succeed on exactly three segments, each non-empty and free of white
    space. *)
Definition spec_three_nonempty_segments (s : string) : bool :=
  match Js.split_char "." s with
  | [h; p; g] =>
      negb (_isEmpty h) && negb (_isEmpty p) && negb (_isEmpty g)
      && seg_ok h && seg_ok p && seg_ok g
  | _ => false
  end.

(* ===================================================================== *)
(** ** Values, the host, the configuration and the instance               *)
(* ===================================================================== *)

(** The JavaScript values that reach storage, callbacks and claim maps.
    Integers that double precision holds exactly and [String(v)] prints
    digit for digit (those below [2 ^ 53] in size) are [VNum]; [VNaN] is
    what [parseInt] gives on a non-number;
    [VOther] stands for any remaining value (array, object, fractional
    number) and carries what [String(v)] prints for it. *)
Inductive value :=
| VUndefined
| VNull
| VBool (b : bool)
| VNum (z : Z)
| VNaN
| VStr (s : string)
| VOther (shown : string).

(** [String(v)]: what [setItem] stores and what [+] on a string appends. *)
Definition ToString (v : value) : string :=
  match v with
  | VUndefined => "undefined"
  | VNull => "null"
  | VBool true => "true"
  | VBool false => "false"
  | VNum z => pretty z
  | VNaN => "NaN"
  | VStr s => s
  | VOther shown => shown
  end.

(** [window.parent]: absent, the window itself (a top-level window is its
    own parent) or another window (the code runs in a frame). *)
Inductive parent := ParentNone | ParentSelf | ParentOther.

Definition parent_truthy (p : parent) : bool :=
  match p with ParentNone => false | _ => true end.

(** What the plugin takes from the language and from the window. *)
Class Host := {
  (** [s.toLowerCase()] *)
  toLowerCase : string -> string;
  (** [encodeURIComponent(s)] *)
  encodeURIComponent : string -> string;
  (** [s > n] for a string [s] and a number [n] *)
  str_gt_num : string -> Z -> bool;
  (** [s == 0] for a string [s] *)
  str_eq_zero : string -> bool;
  (** [n + parseInt(s, 10)] for an integer [n], as the engine computes it
      in double precision: [VNum] for a sum below [2 ^ 53] in size,
      [VNaN] when [parseInt] finds no number, [VOther] with its text for
      any other result (a rounded sum, exponent notation, [Infinity]) *)
  plus_parseInt10 : Z -> string -> value;
  (** the claim object of a payload segment: [_base64DecodeStringUrlSafe]
      followed by [JSON.parse]; [None] when either fails (the exception is
      caught in [_extractIdToken]), when the decoded text is empty, or when
      the parsed value is not an object (it then has no own property) *)
  payload_claims : string -> option (gmap string value);
  (** [Math.round(new Date().getTime() / 1000.0)]; the clock does not
      tick during a call *)
  clock : Z;
  window_parent : parent;
  (** the outcome of the probes [_supportsLocalStorage] and
      [_supportsSessionStorage] *)
  localStorage_usable : bool;
  sessionStorage_usable : bool;
  (** the identifier the next [_guid()] draws *)
  fresh_guid : string
}.

Inductive REQUEST_TYPE := LOGIN | RENEW_TOKEN | UNKNOWN.

Module RESPONSE_TYPE.
Definition ID_TOKEN_TOKEN := "id_token token".
Definition TOKEN := "token".
End RESPONSE_TYPE.

Module CONSTANTS.
Definition ACCESS_TOKEN := "access_token".
Definition EXPIRES_IN := "expires_in".
Definition ID_TOKEN := "id_token".
Definition ERROR_DESCRIPTION := "error_description".
Definition SESSION_STATE := "session_state".
Definition ERROR := "error".
Module STORAGE.
Definition TOKEN_KEYS := "AD_TOKEN_KEYS".
Definition ACCESS_TOKEN_KEY := "AD_ACCESS_TOKEN_KEY".
Definition EXPIRATION_KEY := "AD_EXPIRATION_KEY".
Definition STATE_LOGIN := "AD_STATE_LOGIN".
Definition STATE_RENEW := "AD_STATE_RENEW".
Definition NONCE_IDTOKEN := "AD_NONCE_IDTOKEN".
Definition SESSION_STATE := "AD_SESSION_STATE".
Definition USERNAME := "AD_USERNAME".
Definition IDTOKEN := "AD_IDTOKEN".
Definition ERROR := "AD_ERROR".
Definition ERROR_DESCRIPTION := "AD_ERROR_DESCRIPTION".
Definition LOGIN_REQUEST := "AD_LOGIN_REQUEST".
Definition LOGIN_ERROR := "AD_LOGIN_ERROR".
Definition RENEW_STATUS := "AD_TOKEN_RENEW_STATUS".
Definition ANGULAR_LOGIN_REQUEST := "AD_ANGULAR_LOGIN_REQUEST".
End STORAGE.
Definition RESOURCE_DELIMETER := "|".
Definition CACHE_DELIMETER := "||".
Definition TOKEN_RENEW_STATUS_CANCELED := "Canceled".
Definition TOKEN_RENEW_STATUS_COMPLETED := "Completed".
Definition TOKEN_RENEW_STATUS_IN_PROGRESS := "In Progress".
Definition DEFAULT_EXPIRATION_TIME := 8640000.
End CONSTANTS.
Import CONSTANTS.

(** [this.config] as the constructor leaves it: [clientId] is required,
    [loginResource] defaults to [clientId], [redirectUri] to the current
    location, [anonymousEndpoints] to the empty array.  [None] is a
    property that is not there.  [endpoints] lists the properties of
    [config.endpoints] in the order [for ... in] enumerates them. *)
Record Config := {
  clientId : string;
  tenant : option string;
  redirectUri : string;
  loginResource : string;
  cacheLocation : option string;
  anonymousEndpoints : list string;
  endpoints : list (string * string);
  expireOffsetSeconds : option Z;
  correlationId : option string;
  extraQueryParameter : option string;
  slice : option string;
  state_ : option string   (* config.state *)
}.

(** The class User: [{userName, profile}]. *)
Record User := {
  userName : value;
  profile : gmap string value
}.

(** The class RequestInfo. *)
Record RequestInfo := {
  valid : bool;
  parameters : gmap string string;
  stateMatch : bool;
  stateResponse : string;
  requestType : REQUEST_TYPE
}.

(** What a function does when it is called: it returns, or it throws a
    value.  Of a thrown value the plugin only ever wants the text (the
    catch handler of the dispatcher logs it): [printable] says whether the
    value converts to a string, as an [Error], a string or a number does,
    and a [Symbol] or an object without a string conversion does not. *)
Inductive conduct := Returns | Throws (printable : bool).

(** A caller's callback: not a function at all ([undefined], [null]), or
    a function.  The model knows a function by an identifier and by its
    conduct; calling it is recorded in [calls].  Callbacks that call back
    into the plugin, and thrown objects whose string conversion runs code
    of the caller, are outside the model. *)
Inductive Callback := CbUndefined | CbFun (id : nat) (does : conduct).

(** [(errorDesc, token, error, tokenType)] *)
Definition Args : Type := value * value * value * value.

(** The closure stored in [_callBackMappedToRenewStates]: it captures the
    [resource] and the [expectedState] of the [registerCallback] call that
    created it. *)
Inductive Dispatcher := MkDispatcher (resource expectedState : string).

Inductive exn :=
| TypeError                           (* raised by the engine *)
| Raised (id : nat) (printable : bool). (* the value callback [id] throws *)

(** The instance fields, the two storage areas, and the record of the
    callbacks called so far.  In the three dictionaries [Some None] is a
    property set to [null]. *)
Record state := mkState {
  config : Config;
  instance : string;
  callback : Callback;
  _user : option User;
  _activeRenewals : gmap string (option string);
  _loginInProgress : bool;
  _acquireTokenInProgress : bool;
  _renewStates : list string;
  _callBackMappedToRenewStates : gmap string (option Dispatcher);
  _callBacksMappedToRenewStates : gmap string (option (list Callback));
  _requestType : REQUEST_TYPE;
  localStorage : gmap string string;
  sessionStorage : gmap string string;
  calls : list (nat * Args)
}.

Definition set_user (u : option User) (s : state) : state :=
  mkState (config s) (instance s) (callback s) u (_activeRenewals s)
    (_loginInProgress s) (_acquireTokenInProgress s) (_renewStates s)
    (_callBackMappedToRenewStates s) (_callBacksMappedToRenewStates s)
    (_requestType s) (localStorage s) (sessionStorage s) (calls s).

Definition set_activeRenewals (m : gmap string (option string)) (s : state) : state :=
  mkState (config s) (instance s) (callback s) (_user s) m
    (_loginInProgress s) (_acquireTokenInProgress s) (_renewStates s)
    (_callBackMappedToRenewStates s) (_callBacksMappedToRenewStates s)
    (_requestType s) (localStorage s) (sessionStorage s) (calls s).

Definition set_loginInProgress (b : bool) (s : state) : state :=
  mkState (config s) (instance s) (callback s) (_user s) (_activeRenewals s)
    b (_acquireTokenInProgress s) (_renewStates s)
    (_callBackMappedToRenewStates s) (_callBacksMappedToRenewStates s)
    (_requestType s) (localStorage s) (sessionStorage s) (calls s).

Definition set_callBackMapped (m : gmap string (option Dispatcher)) (s : state) : state :=
  mkState (config s) (instance s) (callback s) (_user s) (_activeRenewals s)
    (_loginInProgress s) (_acquireTokenInProgress s) (_renewStates s)
    m (_callBacksMappedToRenewStates s)
    (_requestType s) (localStorage s) (sessionStorage s) (calls s).

Definition set_callBacksMapped (m : gmap string (option (list Callback))) (s : state) : state :=
  mkState (config s) (instance s) (callback s) (_user s) (_activeRenewals s)
    (_loginInProgress s) (_acquireTokenInProgress s) (_renewStates s)
    (_callBackMappedToRenewStates s) m
    (_requestType s) (localStorage s) (sessionStorage s) (calls s).

Definition set_requestType (t : REQUEST_TYPE) (s : state) : state :=
  mkState (config s) (instance s) (callback s) (_user s) (_activeRenewals s)
    (_loginInProgress s) (_acquireTokenInProgress s) (_renewStates s)
    (_callBackMappedToRenewStates s) (_callBacksMappedToRenewStates s)
    t (localStorage s) (sessionStorage s) (calls s).

Definition set_localStorage (m : gmap string string) (s : state) : state :=
  mkState (config s) (instance s) (callback s) (_user s) (_activeRenewals s)
    (_loginInProgress s) (_acquireTokenInProgress s) (_renewStates s)
    (_callBackMappedToRenewStates s) (_callBacksMappedToRenewStates s)
    (_requestType s) m (sessionStorage s) (calls s).

Definition set_sessionStorage (m : gmap string string) (s : state) : state :=
  mkState (config s) (instance s) (callback s) (_user s) (_activeRenewals s)
    (_loginInProgress s) (_acquireTokenInProgress s) (_renewStates s)
    (_callBackMappedToRenewStates s) (_callBacksMappedToRenewStates s)
    (_requestType s) (localStorage s) m (calls s).

Definition set_calls (l : list (nat * Args)) (s : state) : state :=
  mkState (config s) (instance s) (callback s) (_user s) (_activeRenewals s)
    (_loginInProgress s) (_acquireTokenInProgress s) (_renewStates s)
    (_callBackMappedToRenewStates s) (_callBacksMappedToRenewStates s)
    (_requestType s) (localStorage s) (sessionStorage s) l.

(* ===================================================================== *)
(** ** Methods as state-passing computations                              *)
(* ===================================================================== *)

(** A method either returns, or an exception leaves it; the writes made
    before the exception stay. *)
Inductive outcome (A : Type) :=
| Return (a : A) (s : state)
| Throw (e : exn) (s : state).
Arguments Return {A} a s.
Arguments Throw {A} e s.

Definition M (A : Type) : Type := state -> outcome A.

Definition ret {A} (a : A) : M A := fun s => Return a s.

Definition bind {A B} (m : M A) (k : A -> M B) : M B :=
  fun s => match m s with
           | Return a s' => k a s'
           | Throw e s' => Throw e s'
           end.

Definition get : M state := fun s => Return s s.
Definition modify (f : state -> state) : M unit := fun s => Return tt (f s).
Definition throw {A} (e : exn) : M A := fun s => Throw e s.

(** [try { m } catch (e) { handler(e) }] *)
Definition try_catch (m : M unit) (handler : exn -> M unit) : M unit :=
  fun s => match m s with
           | Return _ s' => Return tt s'
           | Throw e s' => handler e s'
           end.

Declare Scope M_scope.
Delimit Scope M_scope with M.
Notation "x <- m ;; k" := (bind m (fun x => k))
  (at level 100, m at next level, k at level 200, right associativity) : M_scope.
Notation "m ;;; k" := (bind m (fun _ => k))
  (at level 100, k at level 200, right associativity) : M_scope.
Local Open Scope M_scope.

(** Truthiness of a string that may be [null]: [null] and [''] are falsy. *)
Definition truthy (o : option string) : bool :=
  match o with Some s => negb (_isEmpty s) | None => false end.

(** [o || ''] *)
Definition or_empty (o : option string) : string :=
  match o with Some s => s | None => "" end.

(** [parameters[k]] as a value: [undefined] when the key is not there. *)
Definition param (m : gmap string string) (k : string) : value :=
  match m !! k with Some s => VStr s | None => VUndefined end.

(* ===================================================================== *)
(** ** A concrete host and a concrete instance, for the examples          *)
(* ===================================================================== *)

Module Demo.

(** [toLowerCase] on ASCII letters. *)
Definition lower (c : ascii) : ascii :=
  let n := N_of_ascii c in
  if ((65 <=? n) && (n <=? 90))%N then ascii_of_N (n + 32) else c.

Fixpoint lowercase (s : string) : string :=
  match s with
  | EmptyString => ""
  | String c r => String (lower c) (lowercase r)
  end.

(** Decimal integers, as the coercions and [parseInt] read them. *)
Definition decimal (s : string) : option Z :=
  option_map Z.of_int (NilZero.int_of_string s).

(** The double nearest to an integer (ties go to the even one), as an
    integer: 53 bits are kept. *)
Definition to_double (z : Z) : Z :=
  let a := Z.abs z in
  if (a <? 2 ^ 53)%Z then z
  else
    let e := Z.log2 a - 52 in
    let q := a / 2 ^ e in
    let r := a mod 2 ^ e in
    let half := 2 ^ (e - 1) in
    let q' := if ((half <? r) || ((r =? half) && Z.odd q))%Z then q + 1 else q in
    Z.sgn z * (q' * 2 ^ e).

Definition digits (a : Z) : Z := Z.of_nat (String.length (pretty a)).

(** The shortest decimal that reads back as the double [d] of [n] digits:
    its [k] leading digits, for the least [k] there is, and among two
    candidates the nearer one. *)
Fixpoint shortest (turns : nat) (k d n : Z) : Z * Z :=
  match turns with
  | O => (d, n)
  | S turns' =>
      let p := 10 ^ (n - k) in
      let lo := d / p in
      let hi := lo + 1 in
      let near := if (d - lo * p <=? hi * p - d)%Z then lo else hi in
      let far := if (d - lo * p <=? hi * p - d)%Z then hi else lo in
      if (to_double (near * p) =? d)%Z then (near, k)
      else if (to_double (far * p) =? d)%Z then (far, k)
      else shortest turns' (k + 1) d n
  end.

Fixpoint strip_zeros (s : string) : string :=
  match s with
  | EmptyString => ""
  | String c r =>
      match strip_zeros r with
      | EmptyString => if Ascii.eqb c "0" then "" else String c ""
      | r' => String c r'
      end
  end.

(** [String(d)] for a double that is an integer: its shortest digits,
    filled up with zeros below 22 digits and in exponent notation from
    there on. *)
Definition number_text (d : Z) : string :=
  let a := Z.abs d in
  let sign := if (d <? 0)%Z then "-" else "" in
  if (2 ^ 1024 <=? a)%Z then sign +:+ "Infinity"
  else
    let '(s, k) := shortest 21 1 a (digits a) in
    let v := s * 10 ^ (digits a - k) in
    if (digits v <=? 21)%Z then sign +:+ pretty v
    else
      let mantissa :=
        match strip_zeros (pretty s) with
        | String c EmptyString => String c ""
        | String c r => String c (String "." r)
        | EmptyString => "0"
        end in
      sign +:+ mantissa +:+ "e+" +:+ pretty (digits v - 1).

(** [n + parseInt(s, 10)] for the decimal integers [decimal] reads. *)
Definition plus_decimal (n : Z) (s : string) : value :=
  match decimal s with
  | Some z =>
      let d := to_double (n + to_double z) in
      if (Z.abs d <? 2 ^ 53)%Z then VNum d else VOther (number_text d)
  | None => VNaN
  end.

(** [encodeURIComponent] on ASCII text: letters, digits and
    [- _ . ! ~ * ' ( )] stay, every other character becomes [%XX]. *)
Definition unreserved (c : ascii) : bool :=
  let n := N_of_ascii c in
  (((48 <=? n) && (n <=? 57)) || ((65 <=? n) && (n <=? 90))
   || ((97 <=? n) && (n <=? 122)))%N
  || existsb (Ascii.eqb c) (list_ascii_of_string "-_.!~*'()").

Definition hex (n : N) : ascii :=
  if (n <? 10)%N then ascii_of_N (48 + n) else ascii_of_N (55 + n).

Fixpoint percent_encode (s : string) : string :=
  match s with
  | EmptyString => ""
  | String c r =>
      if unreserved c then String c (percent_encode r)
      else String "%" (String (hex (N_of_ascii c / 16))
                         (String (hex (N_of_ascii c mod 16))
                            (percent_encode r)))
  end.

(** Two payload segments and the claim objects they encode: the segments
    are the base64url text of the JSON documents
    [{"aud":"APP-1","upn":"ann@example.org","nonce":"n-1","exp":1700003600}]
    and
    [{"aud":"other-app","email":"bob@example.org","nonce":"n-1","exp":1700003600}]. *)
Definition ann_payload : string :=
  "eyJhdWQiOiJBUFAtMSIsInVwbiI6ImFubkBleGFtcGxlLm9yZyIsIm5vbmNlIjoibi0xIiwiZXhwIjoxNzAwMDAzNjAwfQ".

Definition ann_claims : gmap string value :=
  list_to_map [("aud", VStr "APP-1"); ("upn", VStr "ann@example.org");
               ("nonce", VStr "n-1"); ("exp", VNum 1700003600)].

Definition bob_payload : string :=
  "eyJhdWQiOiJvdGhlci1hcHAiLCJlbWFpbCI6ImJvYkBleGFtcGxlLm9yZyIsIm5vbmNlIjoibi0xIiwiZXhwIjoxNzAwMDAzNjAwfQ".

Definition bob_claims : gmap string value :=
  list_to_map [("aud", VStr "other-app"); ("email", VStr "bob@example.org");
               ("nonce", VStr "n-1"); ("exp", VNum 1700003600)].

Definition claims_of_payload (p : string) : option (gmap string value) :=
  if String.eqb p ann_payload then Some ann_claims
  else if String.eqb p bob_payload then Some bob_claims
  else None.

(** A browser window at second 1,700,000,000 with both stores usable;
    [p] is its [window.parent]. *)
Definition host (p : parent) : Host := {|
  toLowerCase := lowercase;
  encodeURIComponent := percent_encode;
  str_gt_num := fun s n => match decimal s with Some z => z >? n | None => false end;
  str_eq_zero := fun s => match decimal s with Some 0 => true | _ => false end;
  plus_parseInt10 := plus_decimal;
  payload_claims := claims_of_payload;
  clock := 1700000000;
  window_parent := p;
  localStorage_usable := true;
  sessionStorage_usable := true;
  fresh_guid := "9f1c2a34-5b6d-4e7f-8a9b-0c1d2e3f4a5b"
|}.

Definition top_level_window : Host := host ParentSelf.

Definition cfg : Config := {|
  clientId := "app-1";
  tenant := None;
  redirectUri := "https://app.example/cb";
  loginResource := "app-1";
  cacheLocation := None;
  anonymousEndpoints := ["/public"];
  endpoints := [("/api/todo", "todo-resource")];
  expireOffsetSeconds := None;
  correlationId := Some "c0ffee";
  extraQueryParameter := None;
  slice := None;
  state_ := Some "st-1|https://graph.example"
|}.

(** A fresh instance, and the same with given session-storage items. *)
Definition st : state := {|
  config := cfg;
  instance := "https://login.microsoftonline.com/";
  callback := CbFun 0 Returns;
  _user := None;
  _activeRenewals := ∅;
  _loginInProgress := false;
  _acquireTokenInProgress := false;
  _renewStates := [];
  _callBackMappedToRenewStates := ∅;
  _callBacksMappedToRenewStates := ∅;
  _requestType := LOGIN;
  localStorage := ∅;
  sessionStorage := ∅;
  calls := []
|}.

Definition with_items (items : list (string * string)) : state :=
  set_sessionStorage (list_to_map items) st.

Definition ann_token : string := "eyJhbGciOiJub25lIn0." +:+ ann_payload +:+ ".sig".

Definition ann : User := {|
  userName := VStr "ann@example.org";
  profile := ann_claims
|}.

(** A cached, unexpired token for the resource [r1]. *)
Definition cached : state :=
  with_items [("AD_ACCESS_TOKEN_KEYr1", "tok-1"); ("AD_EXPIRATION_KEYr1", "1700009999")].


(** A configuration that keeps the cache in local storage, has a login
    resource of its own and an expiry offset of one minute; an instance
    with it and with given local-storage items. *)
Definition cfg_local : Config := {|
  clientId := "app-1";
  tenant := None;
  redirectUri := "https://app.example/cb";
  loginResource := "https://api.example";
  cacheLocation := Some "localStorage";
  anonymousEndpoints := [];
  endpoints := [];
  expireOffsetSeconds := Some 60;
  correlationId := None;
  extraQueryParameter := None;
  slice := None;
  state_ := None
|}.

Definition local_items (items : list (string * string)) : state := {|
  config := cfg_local;
  instance := "https://login.microsoftonline.com/";
  callback := CbFun 0 Returns;
  _user := None;
  _activeRenewals := ∅;
  _loginInProgress := true;
  _acquireTokenInProgress := false;
  _renewStates := [];
  _callBackMappedToRenewStates := ∅;
  _callBacksMappedToRenewStates := ∅;
  _requestType := LOGIN;
  localStorage := list_to_map items;
  sessionStorage := ∅;
  calls := []
|}.

Definition local_expiring (expiry : string) : state :=
  local_items [("AD_ACCESS_TOKEN_KEYr1", "tok-1"); ("AD_EXPIRATION_KEYr1", expiry)].

(** Registrations for two states; the third callback raises. *)
Definition regs : list (string * string * Callback) :=
  [("s-1", "r1", CbFun 1 Returns); ("s-2", "r2", CbFun 7 Returns);
   ("s-1", "r1", CbFun 2 (Throws true)); ("s-1", "r1", CbFun 3 Returns)].

(** The same with one more callback for [s-1], before the last: it throws
    a value without a string conversion. *)
Definition regs_symbol : list (string * string * Callback) :=
  [("s-1", "r1", CbFun 1 Returns); ("s-2", "r2", CbFun 7 Returns);
   ("s-1", "r1", CbFun 2 (Throws true)); ("s-1", "r1", CbFun 4 (Throws false));
   ("s-1", "r1", CbFun 3 Returns)].

Definition error_args : Args :=
  (VStr "Token renewal operation failed due to timeout", VNull,
   VStr "Token Renewal Failed", VUndefined).

Definition token_args : Args := (VNull, VStr "tok-1", VNull, VStr "access_token").


(** The instance while that login is awaited, with the nonce it sent, and
    with another nonce. *)
Definition awaiting : state := with_items [("AD_NONCE_IDTOKEN", "n-1")].
Definition awaiting_other : state := with_items [("AD_NONCE_IDTOKEN", "n-2")].




(** An error response to a login, and an instance with a cached token. *)
Definition error_response : RequestInfo := {|
  valid := true;
  parameters := list_to_map [("error", "access_denied");
                             ("error_description", "AADSTS65004: declined");
                             ("state", "st-1")];
  stateMatch := true;
  stateResponse := "st-1";
  requestType := LOGIN
|}.

(** An error response to the renewal of the token of [r1], and an error
    response with a parameter named [hasOwnProperty]. *)
Definition renewal_error_response : RequestInfo := {|
  valid := true;
  parameters := list_to_map [("error", "login_required");
                             ("error_description", "AADSTS50058: sign in");
                             ("state", "st-9|r1")];
  stateMatch := true;
  stateResponse := "st-9|r1";
  requestType := RENEW_TOKEN
|}.

Definition shadowed_params : gmap string string :=
  list_to_map [("error_description", "d"); ("state", "st-1");
               ("hasOwnProperty", "1")].

Definition shadowed_response : RequestInfo := {|
  valid := true;
  parameters := shadowed_params;
  stateMatch := true;
  stateResponse := "st-1";
  requestType := LOGIN
|}.

(** A renewal response and the instance that stored its state, the second
    of two renewals in flight. *)
Definition renewal_params : gmap string string :=
  list_to_map [("access_token", "tok-9"); ("state", "st-9|r1")].

Definition renewing : state := with_items [("AD_STATE_RENEW", "st-8|r0||st-9|r1||")].

(** The instance after [login()] opened a popup: the stored login state
    was emptied again and the state is in [_renewStates] only. *)
Definition popup_login : state := {|
  config := cfg;
  instance := "https://login.microsoftonline.com/";
  callback := CbFun 0 Returns;
  _user := None;
  _activeRenewals := ∅;
  _loginInProgress := true;
  _acquireTokenInProgress := false;
  _renewStates := ["st-7"];
  _callBackMappedToRenewStates := ∅;
  _callBacksMappedToRenewStates := ∅;
  _requestType := LOGIN;
  localStorage := ∅;
  sessionStorage := list_to_map [("AD_STATE_LOGIN", ""); ("AD_NONCE_IDTOKEN", "n-1")];
  calls := []
|}.

Definition popup_params : gmap string string :=
  list_to_map [("id_token", ann_token); ("state", "st-7")].

Definition stray_params : gmap string string :=
  list_to_map [("id_token", ann_token); ("state", "st-unknown")].

End Demo.


Section Plugin.
Context `{host : Host}.

(* --------------------------------------------------------------------- *)
(** *** Key-value persistence: [_getItem], [_saveItem]                    *)
(* --------------------------------------------------------------------- *)

Definition _now : Z := clock.

(** [config.cacheLocation === 'localStorage'] *)
Definition uses_localStorage (c : Config) : bool :=
  match cacheLocation c with
  | Some l => String.eqb l "localStorage"
  | None => false
  end.

(** The probe writes, reads back and removes the key [storageTest]; on a
    usable store that leaves the key removed. *)
Definition _supportsLocalStorage : M bool :=
  fun s =>
    if localStorage_usable
    then Return true (set_localStorage (delete "storageTest" (localStorage s)) s)
    else Return false s.

Definition _supportsSessionStorage : M bool :=
  fun s =>
    if sessionStorage_usable
    then Return true (set_sessionStorage (delete "storageTest" (sessionStorage s)) s)
    else Return false s.

Definition _getItem (key : string) : M (option string) :=
  s <- get ;;
  if uses_localStorage (config s) then
    ok <- _supportsLocalStorage ;;
    if negb ok then ret None
    else s' <- get ;; ret (localStorage s' !! key)
  else
    ok <- _supportsSessionStorage ;;
    if negb ok then ret None
    else s' <- get ;; ret (sessionStorage s' !! key).

(** [_saveItem(key, obj, preserve)]; only the [localStorage] branch looks
    at [preserve]. *)
Definition _saveItem (key : string) (obj : value) (preserve : bool) : M bool :=
  s <- get ;;
  if uses_localStorage (config s) then
    ok <- _supportsLocalStorage ;;
    if negb ok then ret false
    else if preserve then
      v <- _getItem key ;;
      modify (fun s => set_localStorage
        (<[key := or_empty v +:+ ToString obj +:+ CACHE_DELIMETER]> (localStorage s)) s) ;;;
      ret true
    else
      modify (fun s => set_localStorage (<[key := ToString obj]> (localStorage s)) s) ;;;
      ret true
  else
    ok <- _supportsSessionStorage ;;
    if negb ok then ret false
    else
      modify (fun s => set_sessionStorage (<[key := ToString obj]> (sessionStorage s)) s) ;;;
      ret true.

(** [_hasResource(key)] *)
Definition _hasResource (key : string) : M bool :=
  keys <- _getItem STORAGE.TOKEN_KEYS ;;
  ret (truthy keys
       && negb (_isEmpty (or_empty keys))
       && (Js.indexOf (or_empty keys) (key +:+ RESOURCE_DELIMETER) >? -1)%Z).

(** [config.expireOffsetSeconds || 300] *)
Definition expire_offset (c : Config) : Z :=
  match expireOffsetSeconds c with
  | None | Some 0 => 300
  | Some n => n
  end.

(** [getCachedToken(resource)]; [None] is the [null] result. *)
Definition getCachedToken (resource : string) : M (option string) :=
  t <- _getItem (STORAGE.ACCESS_TOKEN_KEY +:+ resource) ;;
  let token := or_empty t in
  expiry <- _getItem (STORAGE.EXPIRATION_KEY +:+ resource) ;;
  s <- get ;;
  let offset := expire_offset (config s) in
  if truthy expiry && str_gt_num (or_empty expiry) (_now + offset) then
    ret (Some token)
  else
    _saveItem (STORAGE.ACCESS_TOKEN_KEY +:+ resource) (VStr "") false ;;;
    _saveItem (STORAGE.EXPIRATION_KEY +:+ resource)
              (VNum (_now + DEFAULT_EXPIRATION_TIME)) false ;;;
    ret None.

(** [_expiresIn(expires)] *)
Definition _expiresIn (expires : option string) : value :=
  if negb (truthy expires) || str_eq_zero (or_empty expires)
  then VNum (_now + 8640000)
  else plus_parseInt10 _now (or_empty expires).

(* --------------------------------------------------------------------- *)
(** *** Pending-Request Registry: [registerCallback]                      *)
(* --------------------------------------------------------------------- *)

(** Truthiness of [table[key]] when the table holds arrays or functions. *)
Definition is_set {A} (o : option (option A)) : bool :=
  match o with Some (Some _) => true | _ => false end.

(** Calling a callback with [Args]. *)
Definition call (f : Callback) (a : Args) : M unit :=
  match f with
  | CbUndefined => throw TypeError
  | CbFun id does =>
      modify (fun s => set_calls (calls s ++ [(id, a)])%list s) ;;;
      match does with
      | Returns => ret tt
      | Throws printable => throw (Raised id printable)
      end
  end.

(** [warn(message)] with a caught value as the message: [log] runs (the
    constructor sets the logging level to 3) and builds its line as
    [... + ' ' + message], which converts the value to a string; a value
    that does not convert makes that a [TypeError]. *)
Definition warn (message : exn) : M unit :=
  match message with
  | Raised _ false => throw TypeError
  | _ => ret tt
  end.

(** [registerCallback(expectedState, resource, callback)] *)
Definition registerCallback (expectedState resource : string) (callback : Callback)
  : M unit :=
  modify (fun s => set_activeRenewals
    (<[resource := Some expectedState]> (_activeRenewals s)) s) ;;;
  s <- get ;;
  (if negb (is_set (_callBacksMappedToRenewStates s !! expectedState))
   then modify (fun s => set_callBacksMapped
          (<[expectedState := Some []]> (_callBacksMappedToRenewStates s)) s)
   else ret tt) ;;;
  s <- get ;;
  match _callBacksMappedToRenewStates s !! expectedState with
  | Some (Some l) =>
      modify (fun s => set_callBacksMapped
        (<[expectedState := Some (l ++ [callback])%list]> (_callBacksMappedToRenewStates s)) s)
  | _ => throw TypeError
  end ;;;
  s <- get ;;
  if negb (is_set (_callBackMappedToRenewStates s !! expectedState))
  then modify (fun s => set_callBackMapped
         (<[expectedState := Some (MkDispatcher resource expectedState)]>
            (_callBackMappedToRenewStates s)) s)
  else ret tt.

(** The loop of the merged dispatcher: each callback in a [try] whose
    [catch] hands the caught value to [warn]. *)
Fixpoint call_each (l : list Callback) (a : Args) : M unit :=
  match l with
  | [] => ret tt
  | f :: l' => try_catch (call f a) warn ;;; call_each l' a
  end.

(** Calling the closure [registerCallback] stored for [expectedState].
    The loop looks the list up at every turn; callbacks do not change it
    (see [Callback]), so it is read once. *)
Definition invoke_dispatcher (d : Dispatcher) (a : Args) : M unit :=
  let '(MkDispatcher resource expectedState) := d in
  modify (fun s => set_activeRenewals
    (<[resource := None]> (_activeRenewals s)) s) ;;;
  s <- get ;;
  match _callBacksMappedToRenewStates s !! expectedState with
  | Some (Some l) => call_each l a
  | _ => throw TypeError
  end ;;;
  modify (fun s => set_callBacksMapped
    (<[expectedState := None]> (_callBacksMappedToRenewStates s)) s) ;;;
  modify (fun s => set_callBackMapped
    (<[expectedState := None]> (_callBackMappedToRenewStates s)) s).

(** How [handleWindowCallback] and the timer of [_loadFrameTimeout] reach
    a dispatcher: look [_callBackMappedToRenewStates[expectedState]] up
    and call it when it is set. *)
Definition call_mapped (expectedState : string) (a : Args) : M unit :=
  s <- get ;;
  match _callBackMappedToRenewStates s !! expectedState with
  | Some (Some d) => invoke_dispatcher d a
  | _ => ret tt
  end.

(** A run of [registerCallback] calls, in order. *)
Fixpoint register_all (regs : list (string * string * Callback)) : M unit :=
  match regs with
  | [] => ret tt
  | (st, r, f) :: regs' => registerCallback st r f ;;; register_all regs'
  end.

(* --------------------------------------------------------------------- *)
(** *** Identity Token Codec: [_extractIdToken], [_createUser]            *)
(* --------------------------------------------------------------------- *)

(** [k] is an own property of the object [obj]. *)
Definition own {A} (obj : gmap string A) (k : string) : bool :=
  match obj !! k with Some _ => true | None => false end.

(** [obj.hasOwnProperty(k)] on an object built from a response (the
    parameters of a fragment, the claims of a token).  The method is found
    on [Object.prototype], unless the object has an own property named
    [hasOwnProperty]: its value, a string or a JSON value, is then what is
    called, which is a [TypeError]. *)
Definition hasOwnProperty {A} (obj : gmap string A) (k : string) : M bool :=
  if own obj "hasOwnProperty" then throw TypeError else ret (own obj k).

(** [a || b] on tests that may raise. *)
Definition or_else (a b : M bool) : M bool :=
  x <- a ;; if x then ret true else b.

Definition _extractIdToken (encodedIdToken : string) : option (gmap string value) :=
  match _decodeJwt encodedIdToken with
  | None => None
  | Some decodedToken => payload_claims (JWSPayload decodedToken)
  end.

(** [profile[k]] as a value. *)
Definition claim (m : gmap string value) (k : string) : value :=
  match m !! k with Some v => v | None => VUndefined end.

(** [_createUser(idToken)]; [None] is [null].  [aud.toLowerCase()] is a
    [TypeError] when [aud] is not a string. *)
Definition _createUser (idToken : string) : M (option User) :=
  s <- get ;;
  match _extractIdToken idToken with
  | Some parsedJson =>
      has_aud <- hasOwnProperty parsedJson "aud" ;;
      if has_aud then
        match parsedJson !! "aud" with
        | Some (VStr aud) =>
            if String.eqb (toLowerCase aud) (toLowerCase (clientId (config s)))
            then
              has_upn <- hasOwnProperty parsedJson "upn" ;;
              if has_upn then
                ret (Some {| userName := claim parsedJson "upn";
                             profile := parsedJson |})
              else
                has_email <- hasOwnProperty parsedJson "email" ;;
                if has_email then
                  ret (Some {| userName := claim parsedJson "email";
                               profile := parsedJson |})
                else
                  ret (Some {| userName := VStr ""; profile := parsedJson |})
            else ret None
        | _ => throw TypeError
        end
      else ret None
  | None => ret None
  end.

(* --------------------------------------------------------------------- *)
(** *** Response Reconciler: [getRequestInfo], [_matchState]              *)
(* --------------------------------------------------------------------- *)

(** The loops [for (i ...) if (list[i] === x) ...]. *)
Definition includes (x : string) (l : list string) : bool :=
  existsb (String.eqb x) l.

(** [_matchState(requestInfo)]: the boolean it returns, and the
    [requestInfo] object as it leaves it. *)
Definition _matchState (requestInfo : RequestInfo) : M (bool * RequestInfo) :=
  loginStates <- _getItem STORAGE.STATE_LOGIN ;;
  if truthy loginStates
     && includes (stateResponse requestInfo) (Js.split_bars (or_empty loginStates))
  then ret (true, {| valid := valid requestInfo;
                     parameters := parameters requestInfo;
                     stateMatch := true;
                     stateResponse := stateResponse requestInfo;
                     requestType := LOGIN |})
  else
    acquireTokenStates <- _getItem STORAGE.STATE_RENEW ;;
    if truthy acquireTokenStates
       && includes (stateResponse requestInfo)
                   (Js.split_bars (or_empty acquireTokenStates))
    then ret (true, {| valid := valid requestInfo;
                       parameters := parameters requestInfo;
                       stateMatch := true;
                       stateResponse := stateResponse requestInfo;
                       requestType := RENEW_TOKEN |})
    else ret (false, requestInfo).

(** [getRequestInfo(hash)], from the parameter object on: the argument is
    [_deserialize(_getHash(hash))]. *)
Definition getRequestInfo (params : gmap string string) : M RequestInfo :=
  let requestInfo :=
    {| valid := false; parameters := params; stateMatch := false;
       stateResponse := ""; requestType := UNKNOWN |} in
  is_response <-
    or_else (hasOwnProperty params ERROR_DESCRIPTION)
      (or_else (hasOwnProperty params ACCESS_TOKEN)
         (hasOwnProperty params ID_TOKEN)) ;;
  if is_response then
    has_state <- hasOwnProperty params "state" ;;
    if negb has_state then
      ret {| valid := true; parameters := params; stateMatch := false;
             stateResponse := ""; requestType := UNKNOWN |}
    else
      let stateResponse := or_empty (params !! "state") in
      let requestInfo :=
        {| valid := true; parameters := params; stateMatch := false;
           stateResponse := stateResponse; requestType := UNKNOWN |} in
      r <- _matchState requestInfo ;;
      let (matched, requestInfo) := r : bool * RequestInfo in
      if matched then ret requestInfo
      else
        s <- get ;;
        if negb (stateMatch requestInfo) && parent_truthy window_parent
        then ret {| valid := valid requestInfo;
                    parameters := parameters requestInfo;
                    stateMatch := includes stateResponse (_renewStates s);
                    stateResponse := stateResponse;
                    requestType := _requestType s |}
        else ret requestInfo
  else ret requestInfo.

(** The classification in the specification's words; [nested] says
    whether the code runs in a nested context (a frame).  The result is
    [(stateMatch, requestType)]. *)
Definition spec_classify (nested : bool) (state : option string)
    (loginStates renewalStates issued : list string) (tracked : REQUEST_TYPE)
  : bool * REQUEST_TYPE :=
  match state with
  | None => (false, UNKNOWN)
  | Some st =>
      if includes st loginStates then (true, LOGIN)
      else if includes st renewalStates then (true, RENEW_TOKEN)
      else if nested && includes st issued then (true, tracked)
      else (false, UNKNOWN)
  end.

(** [_matchNonce(user)] *)
Definition _matchNonce (user : User) : M bool :=
  requestNonce <- _getItem STORAGE.NONCE_IDTOKEN ;;
  if truthy requestNonce then
    ret (existsb (fun n => match profile user !! "nonce" with
                           | Some (VStr nonce) => String.eqb n nonce
                           | _ => false
                           end)
                 (Js.split_bars (or_empty requestNonce)))
  else ret false.

(** [_getResourceFromState(state)] *)
Definition _getResourceFromState (state : string) : string :=
  if negb (_isEmpty state) then
    let splitIndex := Js.indexOf state "|" in
    if ((splitIndex >? -1) && (splitIndex + 1 <? Js.length state))%Z
    then Js.substring_from (splitIndex + 1) state
    else ""
  else "".

(* --------------------------------------------------------------------- *)
(** *** The save step: [saveTokenFromHash]                                *)
(* --------------------------------------------------------------------- *)

(** [value] of a string that may be [null]. *)
Definition of_item (o : option string) : value :=
  match o with Some s => VStr s | None => VNull end.

(** The block [saveTokenFromHash] runs before each of its two token
    writes: index the resource in [TOKEN_KEYS] unless it is there. *)
Definition index_resource (resource : string) : M unit :=
  has <- _hasResource resource ;;
  if negb has then
    keys <- _getItem STORAGE.TOKEN_KEYS ;;
    _saveItem STORAGE.TOKEN_KEYS
      (VStr (or_empty keys +:+ resource +:+ RESOURCE_DELIMETER)) false ;;;
    ret tt
  else ret tt.

Definition with_error (requestInfo : RequestInfo) (error error_description : string)
  : RequestInfo :=
  {| valid := valid requestInfo;
     parameters := <["error_description" := error_description]>
                     (<["error" := error]> (parameters requestInfo));
     stateMatch := stateMatch requestInfo;
     stateResponse := stateResponse requestInfo;
     requestType := requestType requestInfo |}.

(** [config.loginResource ? config.loginResource : config.clientId] *)
Definition login_resource (c : Config) : string :=
  if negb (_isEmpty (loginResource c)) then loginResource c else clientId c.

(** The blocks of [saveTokenFromHash], in the order of the source. *)

(** "Record error" (the branch of [error_description]). *)
Definition record_error (requestInfo : RequestInfo) : M unit :=
  let params := parameters requestInfo in
  _saveItem STORAGE.ERROR (param params "error") false ;;;
  _saveItem STORAGE.ERROR_DESCRIPTION (param params ERROR_DESCRIPTION) false ;;;
  match requestType requestInfo with
  | LOGIN =>
      modify (set_loginInProgress false) ;;;
      _saveItem STORAGE.LOGIN_ERROR (param params "error_description") false ;;;
      ret tt
  | _ => ret tt
  end.

Definition record_session_state (params : gmap string string) : M unit :=
  has <- hasOwnProperty params SESSION_STATE ;;
  if has
  then _saveItem STORAGE.SESSION_STATE (param params SESSION_STATE) false ;;; ret tt
  else ret tt.

(** "Fragment has access token" *)
Definition record_access_token (params : gmap string string) (resource : string)
  : M unit :=
  has <- hasOwnProperty params ACCESS_TOKEN ;;
  if has then
    index_resource resource ;;;
    _saveItem (STORAGE.ACCESS_TOKEN_KEY +:+ resource)
              (param params ACCESS_TOKEN) false ;;;
    _saveItem (STORAGE.EXPIRATION_KEY +:+ resource)
              (_expiresIn (params !! EXPIRES_IN)) false ;;;
    ret tt
  else ret tt.

(** "Fragment has id token": the result is [requestInfo] as the block
    leaves it and the value the variable [resource] ends with. *)
Definition record_id_token (requestInfo : RequestInfo) (resource : string)
  : M (RequestInfo * string) :=
  let params := parameters requestInfo in
  has <- hasOwnProperty params ID_TOKEN ;;
  if has then
    modify (set_loginInProgress false) ;;;
    u <- _createUser (or_empty (params !! ID_TOKEN)) ;;
    modify (set_user u) ;;;
    match u with
    | Some user =>
        matched <- _matchNonce user ;;
        if negb matched then
          requested <- _getItem STORAGE.NONCE_IDTOKEN ;;
          _saveItem STORAGE.LOGIN_ERROR
            (VStr ("Nonce received: "
                   +:+ ToString (claim (profile user) "nonce")
                   +:+ " is not same as requested: "
                   +:+ ToString (of_item requested))) false ;;;
          modify (set_user None) ;;;
          ret (requestInfo, resource)
        else
          _saveItem STORAGE.IDTOKEN (param params ID_TOKEN) false ;;;
          s <- get ;;
          let resource := login_resource (config s) in
          index_resource resource ;;;
          _saveItem (STORAGE.ACCESS_TOKEN_KEY +:+ resource)
                    (param params ID_TOKEN) false ;;;
          _saveItem (STORAGE.EXPIRATION_KEY +:+ resource)
                    (claim (profile user) "exp") false ;;;
          ret (requestInfo, resource)
    | None =>
        let description :=
          "Invalid id_token. id_token: " +:+ ToString (param params ID_TOKEN) in
        _saveItem STORAGE.ERROR (VStr "invalid id_token") false ;;;
        _saveItem STORAGE.ERROR_DESCRIPTION (VStr description) false ;;;
        ret (with_error requestInfo "invalid id_token" description, resource)
    end
  else ret (requestInfo, resource).

(** The branch of a state that did not match. *)
Definition record_invalid_state (requestInfo : RequestInfo) : M RequestInfo :=
  let description := "Invalid_state. state: " +:+ stateResponse requestInfo in
  _saveItem STORAGE.ERROR (VStr "Invalid_state") false ;;;
  _saveItem STORAGE.ERROR_DESCRIPTION (VStr description) false ;;;
  ret (with_error requestInfo "Invalid_state" description).

(** [saveTokenFromHash(requestInfo)].  The method writes into
    [requestInfo.parameters] on two of its paths, and its caller reads the
    object afterwards: the result is the object as the method leaves it. *)
Definition saveTokenFromHash (requestInfo : RequestInfo) : M RequestInfo :=
  _saveItem STORAGE.ERROR (VStr "") false ;;;
  _saveItem STORAGE.ERROR_DESCRIPTION (VStr "") false ;;;
  let resource := _getResourceFromState (stateResponse requestInfo) in
  let params := parameters requestInfo in
  r <-
    (is_error <- hasOwnProperty params ERROR_DESCRIPTION ;;
     if is_error then
       record_error requestInfo ;;;
       ret (requestInfo, resource)
     else if stateMatch requestInfo then
       record_session_state params ;;;
       record_access_token params resource ;;;
       record_id_token requestInfo resource
     else
       requestInfo' <- record_invalid_state requestInfo ;;
       ret (requestInfo', resource)) ;;
  _saveItem (STORAGE.RENEW_STATUS +:+ snd r)
            (VStr TOKEN_RENEW_STATUS_COMPLETED) false ;;;
  ret (fst r).

(* --------------------------------------------------------------------- *)
(** *** Authorization Request Builder: [_serialize], [_getNavigateUrl]    *)
(* --------------------------------------------------------------------- *)

Definition _libVersion : string := "1.0.17".

Definition _addLibMetadata : string :=
  "&x-client-SKU=Js&x-client-Ver=" +:+ _libVersion.

(** [value] of a property that may be missing. *)
Definition of_property (o : option string) : value :=
  match o with Some s => VStr s | None => VUndefined end.

(** [_serialize(responseType, obj, resource)] with [obj] the
    configuration. *)
Definition _serialize (responseType : string) (obj : Config) (resource : option string)
  : string :=
  let str :=
    ([ "?response_type=" +:+ "id_token token";
       "client_id=" +:+ encodeURIComponent (clientId obj);
       "resource=" +:+ encodeURIComponent (clientId obj);
       "redirect_uri=" +:+ encodeURIComponent (redirectUri obj);
       "state=" +:+ encodeURIComponent (ToString (of_property (state_ obj))) ]
     ++ match slice obj with
        | Some v => ["slice=" +:+ encodeURIComponent v]
        | None => []
        end
     ++ match extraQueryParameter obj with
        | Some v => [v]
        | None => []
        end
     ++ [ "client-request-id=" +:+ encodeURIComponent
            (if truthy (correlationId obj)
             then or_empty (correlationId obj)
             else fresh_guid) ])%list in
  Js.join "&" str.

(** [_getNavigateUrl(responseType, resource)]; reads [this.config] and
    [this.instance]. *)
Definition _getNavigateUrl (s : state) (responseType : string) (resource : option string)
  : string :=
  let tenant := if truthy (tenant (config s))
                then or_empty (tenant (config s))
                else "common" in
  instance s +:+ tenant +:+ "/oauth2/authorize"
  +:+ _serialize responseType (config s) resource
  +:+ _addLibMetadata.

(* --------------------------------------------------------------------- *)
(** *** Resource-to-Token Mapping: [getResourceForEndpoint]               *)
(* --------------------------------------------------------------------- *)










(* --------------------------------------------------------------------- *)
(** *** Flow Orchestrator: the token-acquisition entry points             *)
(* --------------------------------------------------------------------- *)

(** How an entry point ends when no exception leaves it: the result was
    handed to the callback, the caller joined a renewal in flight, or a
    flow starts ([_renewIdToken], [_renewToken] with the response type they
    are given, or the interactive navigation). *)
Inductive started :=
| Delivered
| JoinedRenewal
| StartsRenewIdToken (responseType : option string)
| StartsRenewToken (responseType : option string)
| StartsInteractive.

Definition resource_required : Args :=
  (VStr "resource is required", VNull, VStr "resource is required", VUndefined).

Definition login_required : Args :=
  (VStr "User login is required", VNull, VStr "login required", VUndefined).

Definition interactive_in_progress : Args :=
  (VStr "Acquire token interactive is already in progress", VNull,
   VStr "Acquire token interactive is already in progress", VUndefined).

Definition is_some {A} (o : option A) : bool :=
  match o with Some _ => true | None => false end.

(** [this._activeRenewals[resource]] when it is truthy. *)
Definition active_renewal (s : state) (resource : string) : option string :=
  match _activeRenewals s !! resource with
  | Some (Some expectedState) =>
      if _isEmpty expectedState then None else Some expectedState
  | _ => None
  end.

(** [acquireToken(resource, callback)] *)
Definition acquireToken (resource : string) (callback : Callback) : M started :=
  if _isEmpty resource then
    call callback resource_required ;;; ret Delivered
  else
    token <- getCachedToken resource ;;
    if truthy token then
      call callback (VNull, VStr (or_empty token), VNull, VUndefined) ;;;
      ret Delivered
    else
      s <- get ;;
      if negb (is_some (_user s))
         && negb (truthy (extraQueryParameter (config s))
                  && negb (Js.indexOf (or_empty (extraQueryParameter (config s)))
                                      "login_hint" =? -1)%Z)
      then call callback login_required ;;; ret Delivered
      else
        match active_renewal s resource with
        | Some expectedState =>
            registerCallback expectedState resource callback ;;;
            ret JoinedRenewal
        | None =>
            modify (set_requestType RENEW_TOKEN) ;;;
            let responseType :=
              if is_some (_user s) then None
              else Some RESPONSE_TYPE.ID_TOKEN_TOKEN in
            if String.eqb resource (clientId (config s))
            then ret (StartsRenewIdToken responseType)
            else ret (StartsRenewToken responseType)
        end.

(** [acquireTokenPopup(resource, extraQueryParameters, claims, callback)],
    up to the point where the URL is built. *)
Definition acquireTokenPopup (resource : string) (callback : Callback) : M started :=
  if _isEmpty resource then
    call callback resource_required ;;; ret Delivered
  else
    s <- get ;;
    if negb (is_some (_user s)) then
      call callback login_required ;;; ret Delivered
    else if _acquireTokenInProgress s then
      call callback interactive_in_progress ;;; ret Delivered
    else ret StartsInteractive.

(** [acquireTokenRedirect(resource, extraQueryParameters, claims)], up to
    the point where the URL is built.  [var callback] is declared in the
    middle of the body: the name exists from the start and holds
    [undefined] until [var callback = this.callback] runs. *)
Definition acquireTokenRedirect (resource : string) : M started :=
  let cb := CbUndefined in            (* the hoisted [callback] *)
  if _isEmpty resource then
    call cb resource_required ;;; ret Delivered
  else
    s <- get ;;
    let cb := callback s in           (* [var callback = this.callback] *)
    if negb (is_some (_user s)) then
      call cb login_required ;;; ret Delivered
    else if _acquireTokenInProgress s then
      call cb interactive_in_progress ;;; ret Delivered
    else ret StartsInteractive.

(* --------------------------------------------------------------------- *)
(** *** Vocabulary of the statements                                      *)
(* --------------------------------------------------------------------- *)

(** The storage area the configuration selects, and whether its probe
    succeeds. *)
Definition store (s : state) : gmap string string :=
  if uses_localStorage (config s) then localStorage s else sessionStorage s.

Definition set_store (m : gmap string string) (s : state) : state :=
  if uses_localStorage (config s) then set_localStorage m s
  else set_sessionStorage m s.

Definition storage_usable (c : Config) : bool :=
  if uses_localStorage c then localStorage_usable else sessionStorage_usable.

(** The state after one probe, and after one plain write. *)
Definition probe (s : state) : state :=
  if storage_usable (config s)
  then set_store (delete "storageTest" (store s)) s
  else s.

Definition put (key text : string) (s : state) : state :=
  if storage_usable (config s)
  then set_store (<[key := text]> (delete "storageTest" (store s))) s
  else s.

(** What [_getItem(key)] answers in state [s]. *)
Definition item (s : state) (key : string) : option string :=
  if storage_usable (config s) then store (probe s) !! key else None.

(** A delimiter-separated list kept under [key]: nothing when the item is
    missing or empty. *)
Definition item_list (s : state) (key : string) : list string :=
  if truthy (item s key) then Js.split_bars (or_empty (item s key)) else [].

(** No character of [s] is among [stops]. *)
Fixpoint free_of (stops : list ascii) (s : string) : bool :=
  match s with
  | EmptyString => true
  | String c r => negb (existsb (Ascii.eqb c) stops) && free_of stops r
  end.

(** A text that stands for itself in a list joined by the delimiter
    [||]: every bar in it is followed by a character other than a bar, so
    that no delimiter arises inside it or where the next one is appended. *)
Fixpoint plain (x : string) : bool :=
  match x with
  | EmptyString => true
  | String a r =>
      if Ascii.eqb a "|"
      then match r with
           | EmptyString => false
           | String b _ => negb (Ascii.eqb b "|") && plain r
           end
      else plain r
  end.


(** The callbacks a run of registrations hands in for [expectedState],
    in order, and the resource of the first of these registrations. *)
Fixpoint registered (expectedState : string) (regs : list (string * string * Callback))
  : list Callback :=
  match regs with
  | [] => []
  | (st, _, f) :: regs' =>
      if String.eqb st expectedState
      then f :: registered expectedState regs'
      else registered expectedState regs'
  end.

Fixpoint first_resource (expectedState : string)
    (regs : list (string * string * Callback)) : option string :=
  match regs with
  | [] => None
  | (st, r, _) :: regs' =>
      if String.eqb st expectedState then Some r
      else first_resource expectedState regs'
  end.

(** The record entries the functions among [l] leave when each is called
    once, in order, with [a]. *)
Definition invocations (l : list Callback) (a : Args) : list (nat * Args) :=
  flat_map (fun f => match f with
                     | CbFun id _ => [(id, a)]
                     | CbUndefined => []
                     end) l.

(** A callback after which the loop of the dispatcher goes on: it is a
    function that returns, or what its call throws (for [undefined], the
    engine's [TypeError]) converts to a string. *)
Definition quiet (f : Callback) : bool :=
  match f with
  | CbFun _ (Throws false) => false
  | _ => true
  end.

(** Two states with the same instance fields; the storage areas and
    [_loginInProgress] are left out. *)
Definition same_fields (s s' : state) : Prop :=
  config s' = config s
  /\ instance s' = instance s
  /\ callback s' = callback s
  /\ _user s' = _user s
  /\ _activeRenewals s' = _activeRenewals s
  /\ _acquireTokenInProgress s' = _acquireTokenInProgress s
  /\ _renewStates s' = _renewStates s
  /\ _callBackMappedToRenewStates s' = _callBackMappedToRenewStates s
  /\ _callBacksMappedToRenewStates s' = _callBacksMappedToRenewStates s
  /\ _requestType s' = _requestType s
  /\ calls s' = calls s.

(** Item [k] reads the same in [s] and [s'], in both storage areas. *)
Definition untouched (k : string) (s s' : state) : Prop :=
  localStorage s' !! k = localStorage s !! k
  /\ sessionStorage s' !! k = sessionStorage s !! k.

(** From [s] to [s'] the configuration is kept and storage changed at the
    keys [ks] at most (and at the key of the probe). *)
Definition writes_only (ks : list string) (s s' : state) : Prop :=
  config s' = config s
  /\ forall k, ~ In k ks -> k <> "storageTest" -> untouched k s s'.


(** What a classification answers: [(stateMatch, requestType)]. *)
Definition classification (o : outcome RequestInfo) : option (bool * REQUEST_TYPE) :=
  match o with
  | Return ri _ => Some (stateMatch ri, requestType ri)
  | Throw _ _ => None
  end.

(** [window.parent !== window] *)
Definition nested (p : parent) : bool :=
  match p with ParentOther => true | _ => false end.

(** The classification in the specification's words ([spec_classify]),
    read off a state and a parameter object. *)
Definition spec_classify_at (s : state) (params : gmap string string)
  : bool * REQUEST_TYPE :=
  spec_classify (nested window_parent) (params !! "state")
    (item_list s STORAGE.STATE_LOGIN) (item_list s STORAGE.STATE_RENEW)
    (_renewStates s) (_requestType s).

(** The callback list of [expectedState], empty when the entry is not set. *)
Definition current_list (s : state) (expectedState : string) : list Callback :=
  match _callBacksMappedToRenewStates s !! expectedState with
  | Some (Some l) => l
  | _ => []
  end.




(* ===================================================================== *)
(** ** Proofs: [_decodeJwt]                                               *)
(* ===================================================================== *)

Lemma span_seg_app (s a b : string) :
  span_seg s = (a, b) -> s = a +:+ b /\ seg_ok a = true.
Proof.
  revert a b. induction s as [|c r IH]; simpl; intros a b E.
  - inversion E; subst. auto.
  - destruct (seg_char c) eqn:Hc.
    + destruct (span_seg r) as [a' b'] eqn:Er. inversion E; subst.
      destruct (IH a' b eq_refl) as [-> Hok]. simpl. rewrite Hc. auto.
    + inversion E; subst. auto.
Qed.

Lemma span_seg_dot (a r : string) :
  seg_ok a = true -> span_seg (a +:+ String "." r) = (a, String "." r).
Proof.
  induction a as [|c a IH]; simpl; intros H.
  - reflexivity.
  - apply andb_true_iff in H as [Hc Ha]. rewrite Hc, (IH Ha). reflexivity.
Qed.

Lemma span_seg_end (a : string) :
  seg_ok a = true -> span_seg a = (a, "").
Proof.
  induction a as [|c a IH]; simpl; intros H.
  - reflexivity.
  - apply andb_true_iff in H as [Hc Ha]. rewrite Hc, (IH Ha). reflexivity.
Qed.

Lemma append_empty_r (s : string) : s +:+ "" = s.
Proof. induction s; simpl; congruence. Qed.

Lemma isEmpty_false (s : string) : _isEmpty s = false <-> s <> "".
Proof. destruct s; simpl; split; congruence. Qed.

(** C5 (as amended).  [_decodeJwt] succeeds with [{header, JWSPayload,
    JWSSig}] exactly when the token is [header.JWSPayload.JWSSig] with the
    three segments free of dots and white space and the payload non-empty;
    the header and the signature may be empty.  Every other string gives
    [null]. *)
Theorem decodeJwt_shape (s : string) (c : crackedToken) :
  _decodeJwt s = Some c <->
  s = header c +:+ "." +:+ JWSPayload c +:+ "." +:+ JWSSig c
  /\ seg_ok (header c) = true
  /\ seg_ok (JWSPayload c) = true
  /\ JWSPayload c <> ""
  /\ seg_ok (JWSSig c) = true.
Proof.
  split.
  - unfold _decodeJwt. destruct (_isEmpty s) eqn:Hs; [discriminate|].
    destruct (span_seg s) as [h r1] eqn:E1.
    destruct r1 as [|d1 r1']; [discriminate|].
    destruct (Ascii.eqb_spec d1 "."); [subst d1|].
    2:{ destruct d1 as [[] [] [] [] [] [] [] []]; intros; (discriminate || congruence). }
    destruct (span_seg r1') as [p r2] eqn:E2.
    destruct (_isEmpty p) eqn:Hp; [discriminate|].
    destruct r2 as [|d2 r2']; [discriminate|].
    destruct (Ascii.eqb_spec d2 "."); [subst d2|].
    2:{ destruct d2 as [[] [] [] [] [] [] [] []]; intros; (discriminate || congruence). }
    destruct (span_seg r2') as [g r3] eqn:E3.
    destruct r3; [|discriminate].
    intros [= <-]. simpl.
    apply span_seg_app in E1 as [-> Hh].
    apply span_seg_app in E2 as [-> Hpk].
    apply span_seg_app in E3 as [-> Hg].
    repeat split; auto.
    + now rewrite append_empty_r.
    + now apply isEmpty_false.
  - destruct c as [h p g]. simpl. intros (-> & Hh & Hp & Hne & Hg).
    unfold _decodeJwt.
    assert (_isEmpty (h +:+ String "." (p +:+ String "." g)) = false) as ->
      by (destruct h; reflexivity).
    rewrite (span_seg_dot h _ Hh), (span_seg_dot p _ Hp).
    apply isEmpty_false in Hne. rewrite Hne.
    rewrite (span_seg_end g Hg). reflexivity.
Qed.

(* ===================================================================== *)
(** ** Proofs: the storage layer                                          *)
(* ===================================================================== *)

Lemma bind_assoc {A B C} (m : M A) (f : A -> M B) (g : B -> M C) (s : state) :
  bind (bind m f) g s = bind m (fun x => bind (f x) g) s.
Proof. unfold bind. now destruct (m s). Qed.

Lemma bind_get {B} (K : state -> M B) (s : state) : bind get K s = K s s.
Proof. reflexivity. Qed.

Lemma bind_ret {A B} (a : A) (K : A -> M B) (s : state) : bind (ret a) K s = K a s.
Proof. reflexivity. Qed.

Lemma bind_modify {B} (f : state -> state) (K : unit -> M B) (s : state) :
  bind (modify f) K s = K tt (f s).
Proof. reflexivity. Qed.

Lemma config_set_store m s : config (set_store m s) = config s.
Proof. unfold set_store. destruct (uses_localStorage _); reflexivity. Qed.

Lemma store_set_store m s : store (set_store m s) = m.
Proof.
  unfold store, set_store.
  destruct (uses_localStorage (config s)) eqn:E; simpl; rewrite E; reflexivity.
Qed.

Lemma config_probe s : config (probe s) = config s.
Proof. unfold probe. destruct (storage_usable _); auto using config_set_store. Qed.

Lemma config_put k x s : config (put k x s) = config s.
Proof. unfold put. destruct (storage_usable _); auto using config_set_store. Qed.

(** [_getItem] answers [item] and leaves one probe behind. *)
Lemma getItem_run k s : _getItem k s = Return (item s k) (probe s).
Proof.
  unfold _getItem, item, probe, storage_usable, store, set_store, bind, get, ret,
    _supportsLocalStorage, _supportsSessionStorage.
  destruct (uses_localStorage (config s)) eqn:E.
  - destruct localStorage_usable; simpl; rewrite ?E; reflexivity.
  - destruct sessionStorage_usable; simpl; rewrite ?E; reflexivity.
Qed.

(** A plain [_saveItem] is one [put]. *)
Lemma saveItem_run k v s :
  _saveItem k v false s = Return (storage_usable (config s)) (put k (ToString v) s).
Proof.
  unfold _saveItem, put, storage_usable, store, set_store, bind, get, ret, modify,
    _supportsLocalStorage, _supportsSessionStorage.
  destruct (uses_localStorage (config s)) eqn:E.
  - destruct localStorage_usable; simpl; rewrite ?E; reflexivity.
  - destruct sessionStorage_usable; simpl; rewrite ?E; reflexivity.
Qed.

Lemma bind_getItem {B} k (K : option string -> M B) s :
  bind (_getItem k) K s = K (item s k) (probe s).
Proof. unfold bind. now rewrite getItem_run. Qed.

Lemma bind_saveItem {B} k v (K : bool -> M B) s :
  bind (_saveItem k v false) K s
  = K (storage_usable (config s)) (put k (ToString v) s).
Proof. unfold bind. now rewrite saveItem_run. Qed.

Lemma store_probe s :
  storage_usable (config s) = true ->
  store (probe s) = delete "storageTest" (store s).
Proof. intros U. unfold probe. now rewrite U, store_set_store. Qed.

Lemma store_put k x s :
  storage_usable (config s) = true ->
  store (put k x s) = <[k := x]> (delete "storageTest" (store s)).
Proof. intros U. unfold put. now rewrite U, store_set_store. Qed.

Lemma item_probe s k : item (probe s) k = item s k.
Proof.
  unfold item. rewrite config_probe.
  destruct (storage_usable (config s)) eqn:U; [|reflexivity].
  rewrite (store_probe (probe s)) by now rewrite config_probe.
  rewrite (store_probe s U).
  destruct (decide (k = "storageTest")) as [->|Hk].
  - now rewrite !lookup_delete_eq.
  - now rewrite !lookup_delete_ne by congruence.
Qed.

Lemma item_put_ne s k x k' : k <> k' -> item (put k x s) k' = item s k'.
Proof.
  intros Hne. unfold item. rewrite config_put.
  destruct (storage_usable (config s)) eqn:U; [|reflexivity].
  rewrite (store_probe (put k x s)) by now rewrite config_put.
  rewrite (store_put k x s U), (store_probe s U).
  destruct (decide (k' = "storageTest")) as [->|Hk].
  - now rewrite !lookup_delete_eq.
  - rewrite !lookup_delete_ne by congruence.
    now rewrite lookup_insert_ne, lookup_delete_ne by congruence.
Qed.

Lemma item_put_eq s k x :
  storage_usable (config s) = true -> k <> "storageTest" ->
  item (put k x s) k = Some x.
Proof.
  intros U Hk. unfold item. rewrite config_put, U.
  rewrite (store_probe (put k x s)) by now rewrite config_put.
  rewrite (store_put k x s U).
  rewrite lookup_delete_ne by congruence. apply lookup_insert_eq.
Qed.

Lemma item_unusable s k : storage_usable (config s) = false -> item s k = None.
Proof. unfold item. now intros ->. Qed.

(* ===================================================================== *)
(** ** Proofs: [getCachedToken]                                           *)
(* ===================================================================== *)

Ltac key_neq :=
  let E := fresh in
  cbv [STORAGE.TOKEN_KEYS STORAGE.ACCESS_TOKEN_KEY STORAGE.EXPIRATION_KEY
       STORAGE.STATE_LOGIN STORAGE.STATE_RENEW STORAGE.NONCE_IDTOKEN
       STORAGE.SESSION_STATE STORAGE.USERNAME STORAGE.IDTOKEN STORAGE.ERROR
       STORAGE.ERROR_DESCRIPTION STORAGE.LOGIN_REQUEST STORAGE.LOGIN_ERROR
       STORAGE.RENEW_STATUS STORAGE.ANGULAR_LOGIN_REQUEST];
  simpl; intros E; discriminate E.



(** [getCachedToken] as a run of reads and writes. *)
Lemma getCachedToken_run (s : state) (R : string) :
  getCachedToken R s =
  if truthy (item s (STORAGE.EXPIRATION_KEY +:+ R))
     && str_gt_num (or_empty (item s (STORAGE.EXPIRATION_KEY +:+ R)))
                   (_now + expire_offset (config s))
  then Return (Some (or_empty (item s (STORAGE.ACCESS_TOKEN_KEY +:+ R))))
              (probe (probe s))
  else Return None
         (put (STORAGE.EXPIRATION_KEY +:+ R) (pretty (_now + 8640000))
            (put (STORAGE.ACCESS_TOKEN_KEY +:+ R) "" (probe (probe s)))).
Proof.
  unfold getCachedToken. rewrite bind_getItem, bind_getItem.
  unfold bind at 1, get at 1. rewrite item_probe, !config_probe.
  destruct (_ && _); [reflexivity|].
  rewrite bind_saveItem, bind_saveItem. reflexivity.
Qed.

(** Without a usable store there is nothing to read or to reset:
    [getCachedToken] returns [null] and changes nothing. *)
Lemma getCachedToken_unusable (s : state) (R : string) :
  storage_usable (config s) = false -> getCachedToken R s = Return None s.
Proof.
  intros U. rewrite getCachedToken_run, (item_unusable _ _ U). simpl.
  unfold put, probe. now rewrite !U.
Qed.


(* ===================================================================== *)
(** ** Proofs: the pending-request registry                               *)
(* ===================================================================== *)

Lemma registerCallback_run (st r : string) (f : Callback) (s : state) :
  exists s',
    registerCallback st r f s = Return tt s'
    /\ calls s' = calls s
    /\ _activeRenewals s' = <[r := Some st]> (_activeRenewals s)
    /\ _callBacksMappedToRenewStates s'
       = <[st := Some (current_list s st ++ [f])%list]> (_callBacksMappedToRenewStates s)
    /\ _callBackMappedToRenewStates s'
       = (if is_set (_callBackMappedToRenewStates s !! st)
          then _callBackMappedToRenewStates s
          else <[st := Some (MkDispatcher r st)]> (_callBackMappedToRenewStates s)).
Proof.
  unfold registerCallback, current_list, bind, modify, get, ret, throw. simpl.
  destruct (_callBacksMappedToRenewStates s !! st) as [[l|]|] eqn:E; simpl;
    rewrite ?E, ?lookup_insert_eq; simpl;
    destruct (is_set (_callBackMappedToRenewStates s !! st));
    simpl; eexists; (split; [reflexivity|]); simpl;
    rewrite ?insert_insert_eq; repeat split; reflexivity.
Qed.

Lemma register_all_run (st0 : string) (regs : list (string * string * Callback)) :
  forall s, exists s',
    register_all regs s = Return tt s'
    /\ calls s' = calls s
    /\ _callBacksMappedToRenewStates s' !! st0
       = match registered st0 regs with
         | [] => _callBacksMappedToRenewStates s !! st0
         | l => Some (Some (current_list s st0 ++ l)%list)
         end
    /\ _callBackMappedToRenewStates s' !! st0
       = (if is_set (_callBackMappedToRenewStates s !! st0)
          then _callBackMappedToRenewStates s !! st0
          else match first_resource st0 regs with
               | Some r => Some (Some (MkDispatcher r st0))
               | None => _callBackMappedToRenewStates s !! st0
               end).
Proof.
  induction regs as [|[[st r] f] regs IH]; intros s; simpl.
  - exists s. repeat split; try reflexivity.
    now destruct (is_set _).
  - destruct (registerCallback_run st r f s) as (s1 & R1 & C1 & _ & L1 & D1).
    destruct (IH s1) as (s2 & R2 & C2 & L2 & D2).
    exists s2. unfold bind. rewrite R1. split; [exact R2|].
    split; [congruence|].
    destruct (String.eqb_spec st st0) as [->|Hne].
    + split.
      * rewrite L2. unfold current_list at 1. rewrite L1, lookup_insert_eq.
        destruct (registered st0 regs).
        -- reflexivity.
        -- now rewrite <- app_assoc.
      * rewrite D2, D1.
        destruct (is_set (_callBackMappedToRenewStates s !! st0)) eqn:S0.
        -- now rewrite S0.
        -- now rewrite lookup_insert_eq.
    + split.
      * rewrite L2. unfold current_list. rewrite L1, lookup_insert_ne by congruence.
        reflexivity.
      * rewrite D2, D1.
        destruct (is_set (_callBackMappedToRenewStates s !! st));
          rewrite ?lookup_insert_ne by congruence; reflexivity.
Qed.

Lemma invocations_app (l l' : list Callback) (a : Args) :
  invocations (l ++ l') a = (invocations l a ++ invocations l' a)%list.
Proof. unfold invocations. apply flat_map_app. Qed.

(** One turn of the loop with a quiet callback. *)
Lemma call_quiet (f : Callback) (a : Args) (s : state) :
  quiet f = true ->
  try_catch (call f a) warn s
  = Return tt (set_calls (calls s ++ invocations [f] a)%list s).
Proof.
  destruct f as [|id [|[|]]]; try discriminate; intros _;
    unfold try_catch, call, warn, bind, modify, throw, ret; simpl;
    rewrite ?app_nil_r; try reflexivity.
  now destruct s.
Qed.

(** When every callback is quiet the loop calls them all and returns. *)
Lemma call_each_run (l : list Callback) (a : Args) :
  forallb quiet l = true ->
  forall s, call_each l a s = Return tt (set_calls (calls s ++ invocations l a)%list s).
Proof.
  induction l as [|f l IH]; intros Q s.
  - simpl. unfold ret. destruct s; simpl. now rewrite app_nil_r.
  - cbn [forallb] in Q. apply andb_true_iff in Q as [Qf Ql].
    cbn [call_each]. unfold bind. rewrite (call_quiet _ _ _ Qf), (IH Ql).
    change (f :: l) with ([f] ++ l)%list. rewrite invocations_app.
    simpl. now rewrite <- app_assoc.
Qed.

(** At the first callback that throws a value without a string
    conversion, [warn] raises and the loop is left: the callbacks up to
    that one have been called, the later ones have not. *)
Lemma call_each_stops (pre post : list Callback) (id : nat) (a : Args) :
  forallb quiet pre = true ->
  forall s,
    call_each (pre ++ CbFun id (Throws false) :: post) a s
    = Throw TypeError
        (set_calls (calls s ++ invocations (pre ++ [CbFun id (Throws false)]) a)%list s).
Proof.
  induction pre as [|f pre IH]; intros Q s.
  - reflexivity.
  - cbn [forallb] in Q. apply andb_true_iff in Q as [Qf Ql].
    cbn [List.app call_each]. unfold bind. rewrite (call_quiet _ _ _ Qf), (IH Ql).
    change (f :: (pre ++ [CbFun id (Throws false)]))%list
      with ([f] ++ (pre ++ [CbFun id (Throws false)]))%list.
    rewrite (invocations_app [f]). simpl. now rewrite <- app_assoc.
Qed.

Lemma first_resource_registered (st0 : string) regs :
  registered st0 regs <> [] -> exists r, first_resource st0 regs = Some r.
Proof.
  induction regs as [|[[st r] f] regs IH]; simpl; [congruence|].
  destruct (String.eqb st st0); eauto.
Qed.

Lemma current_list_unset (s : state) (st0 : string) :
  is_set (_callBacksMappedToRenewStates s !! st0) = false -> current_list s st0 = [].
Proof.
  unfold current_list. now destruct (_ !! st0) as [[|]|].
Qed.

(** When every registered callback is a function, each of them is called. *)
Lemma invocations_functions (l : list Callback) (a : Args) :
  Forall (fun f => f <> CbUndefined) l ->
  List.length (invocations l a) = List.length l.
Proof.
  induction 1 as [|f l Hf _ IH]; simpl; [reflexivity|].
  destruct f; [congruence|]. simpl. now rewrite IH.
Qed.

(** The single delivery, where it holds.  Let [expectedState] have no
    entry in the two tables, and let a run of [registerCallback] calls
    (for this and for other states) hand in the callbacks
    [registered expectedState regs], at least one and all of them quiet.
    Then one dispatcher is stored for [expectedState], the one of the
    first of these registrations.  Looking it up and calling it once with
    [a] sets the active-renewal entry of its resource to [null], calls the
    registered callbacks in registration order, each with [a], lets no
    exception out, and sets the callback list and the dispatcher entry of
    [expectedState] to [null]; a second look-up and call changes nothing
    and calls nobody. *)
Lemma dispatcher_single_delivery
    (s : state) (regs : list (string * string * Callback))
    (expectedState : string) (a a' : Args) :
  is_set (_callBacksMappedToRenewStates s !! expectedState) = false ->
  is_set (_callBackMappedToRenewStates s !! expectedState) = false ->
  registered expectedState regs <> [] ->
  forallb quiet (registered expectedState regs) = true ->
  exists s1 r s2,
    register_all regs s = Return tt s1
    /\ calls s1 = calls s
    /\ first_resource expectedState regs = Some r
    /\ _callBackMappedToRenewStates s1 !! expectedState
       = Some (Some (MkDispatcher r expectedState))
    /\ call_mapped expectedState a s1 = Return tt s2
    /\ calls s2 = (calls s1 ++ invocations (registered expectedState regs) a)%list
    /\ _activeRenewals s2 !! r = Some None
    /\ _callBacksMappedToRenewStates s2 !! expectedState = Some None
    /\ _callBackMappedToRenewStates s2 !! expectedState = Some None
    /\ call_mapped expectedState a' s2 = Return tt s2.
Proof.
  intros HL HD HN Q.
  destruct (register_all_run expectedState regs s) as (s1 & R1 & C1 & L1 & D1).
  destruct (first_resource_registered _ _ HN) as (r & Hr).
  rewrite HD, Hr in D1. rewrite (current_list_unset _ _ HL) in L1.
  destruct (registered expectedState regs) as [|f l] eqn:Hreg; [congruence|].
  simpl in L1.
  exists s1, r. eexists. split; [exact R1|]. split; [exact C1|].
  split; [exact Hr|].
  split; [exact D1|].
  assert (call_mapped expectedState a s1 = Return tt
    (set_callBackMapped (<[expectedState := None]> (_callBackMappedToRenewStates s1))
      (set_callBacksMapped (<[expectedState := None]> (_callBacksMappedToRenewStates s1))
        (set_calls (calls s1 ++ invocations (f :: l) a)%list
          (set_activeRenewals (<[r := None]> (_activeRenewals s1)) s1))))) as E.
  { unfold call_mapped, bind at 1, get at 1. rewrite D1.
    unfold invoke_dispatcher, bind, modify, get. simpl. rewrite L1.
    rewrite call_each_run by exact Q. reflexivity. }
  split; [exact E|]. simpl.
  split; [reflexivity|].
  split; [apply lookup_insert_eq|].
  split; [apply lookup_insert_eq|].
  split; [apply lookup_insert_eq|].
  unfold call_mapped, bind, get. simpl. rewrite lookup_insert_eq. reflexivity.
Qed.

(** The dispatcher of [expectedState] in a state where the callback list
    of [expectedState] is [pre ++ f :: post], the callbacks of [pre] are
    quiet and [f] throws a value without a string conversion. *)
Lemma call_mapped_stops (s : state) (expectedState r : string) (a : Args)
    (pre post : list Callback) (id : nat) :
  _callBackMappedToRenewStates s !! expectedState
  = Some (Some (MkDispatcher r expectedState)) ->
  _callBacksMappedToRenewStates s !! expectedState
  = Some (Some (pre ++ CbFun id (Throws false) :: post)%list) ->
  forallb quiet pre = true ->
  call_mapped expectedState a s
  = Throw TypeError
      (set_calls (calls s ++ invocations (pre ++ [CbFun id (Throws false)]) a)%list
         (set_activeRenewals (<[r := None]> (_activeRenewals s)) s)).
Proof.
  intros D L Q. unfold call_mapped, bind at 1, get at 1. rewrite D.
  unfold invoke_dispatcher, bind, modify, get. simpl. rewrite L.
  now rewrite call_each_stops by exact Q.
Qed.

(** C2, at the inputs where the code departs from it.  Let a run of
    [registerCallback] calls hand in, for [expectedState], the callbacks
    [pre], then a callback that throws a value without a string conversion
    (a [Symbol], say), then the callbacks [post]; the callbacks of [pre]
    are quiet.  Calling the dispatcher sets the active-renewal entry of
    its resource to [null] and calls [pre] and the throwing callback;
    then the catch handler, which logs the caught value, raises a
    [TypeError] that leaves the dispatcher: the callbacks of [post] are
    not called, and the callback list and the dispatcher entry of
    [expectedState] stay as they were, so that a second look-up and call
    delivers once more to [pre] and to the throwing callback. *)
Theorem dispatcher_stops_at_unprintable_exception
    (s : state) (regs : list (string * string * Callback))
    (expectedState : string) (a a' : Args)
    (pre post : list Callback) (id : nat) :
  is_set (_callBacksMappedToRenewStates s !! expectedState) = false ->
  is_set (_callBackMappedToRenewStates s !! expectedState) = false ->
  registered expectedState regs = (pre ++ CbFun id (Throws false) :: post)%list ->
  forallb quiet pre = true ->
  exists s1 r s2 s3,
    register_all regs s = Return tt s1
    /\ calls s1 = calls s
    /\ first_resource expectedState regs = Some r
    /\ call_mapped expectedState a s1 = Throw TypeError s2
    /\ calls s2
       = (calls s1 ++ invocations (pre ++ [CbFun id (Throws false)]) a)%list
    /\ _activeRenewals s2 !! r = Some None
    /\ _callBacksMappedToRenewStates s2 !! expectedState
       = Some (Some (registered expectedState regs))
    /\ _callBackMappedToRenewStates s2 !! expectedState
       = Some (Some (MkDispatcher r expectedState))
    /\ call_mapped expectedState a' s2 = Throw TypeError s3
    /\ calls s3
       = (calls s2 ++ invocations (pre ++ [CbFun id (Throws false)]) a')%list.
Proof.
  intros HL HD HR Q.
  destruct (register_all_run expectedState regs s) as (s1 & R1 & C1 & L1 & D1).
  assert (registered expectedState regs <> []) as HN
    by (rewrite HR; now destruct pre).
  destruct (first_resource_registered _ _ HN) as (r & Hr).
  rewrite HD, Hr in D1. rewrite (current_list_unset _ _ HL) in L1.
  assert (_callBacksMappedToRenewStates s1 !! expectedState
          = Some (Some (pre ++ CbFun id (Throws false) :: post)%list)) as L1'.
  { rewrite L1, HR. now destruct pre. }
  exists s1, r. eexists. eexists.
  split; [exact R1|]. split; [exact C1|]. split; [exact Hr|].
  split; [exact (call_mapped_stops _ _ _ _ _ _ _ D1 L1' Q)|].
  split; [reflexivity|].
  split; [apply lookup_insert_eq|].
  split; [now rewrite HR|].
  split; [exact D1|].
  split; [apply (call_mapped_stops _ _ r _ pre post id); [exact D1|exact L1'|exact Q]|].
  reflexivity.
Qed.

(* ===================================================================== *)
(** ** Proofs: [_createUser]                                              *)
(* ===================================================================== *)

Lemma hasOwnProperty_run {A B} (obj : gmap string A) (k : string) (K : bool -> M B)
    (s : state) :
  obj !! "hasOwnProperty" = None ->
  bind (hasOwnProperty obj k) K s = K (own obj k) s.
Proof. intros N. unfold hasOwnProperty, own, bind. now rewrite N. Qed.

Lemma hasOwnProperty_raises {A B} (obj : gmap string A) (k : string) (K : bool -> M B)
    (s : state) :
  own obj "hasOwnProperty" = true ->
  bind (hasOwnProperty obj k) K s = Throw TypeError s.
Proof. intros O. unfold hasOwnProperty, bind. now rewrite O. Qed.

Lemma own_false {A} (obj : gmap string A) (k : string) :
  own obj k = false <-> obj !! k = None.
Proof. unfold own. destruct (obj !! k); split; congruence. Qed.

(** [_createUser] as a function of the token and the client id. *)
Lemma createUser_run (idToken : string) (s : state) :
  _createUser idToken s
  = match _extractIdToken idToken with
    | None => Return None s
    | Some m =>
        if own m "hasOwnProperty" then Throw TypeError s
        else match m !! "aud" with
             | None => Return None s
             | Some (VStr aud) =>
                 if String.eqb (toLowerCase aud) (toLowerCase (clientId (config s)))
                 then Return (Some {| userName :=
                                        match m !! "upn" with
                                        | Some upn => upn
                                        | None => match m !! "email" with
                                                  | Some email => email
                                                  | None => VStr ""
                                                  end
                                        end;
                                      profile := m |}) s
                 else Return None s
             | Some _ => Throw TypeError s
             end
    end.
Proof.
  unfold _createUser. rewrite bind_get.
  destruct (_extractIdToken idToken) as [m|]; [|reflexivity].
  destruct (own m "hasOwnProperty") eqn:O.
  { now apply hasOwnProperty_raises. }
  apply own_false in O. rewrite (hasOwnProperty_run _ _ _ _ O).
  unfold own, claim.
  destruct (m !! "aud") as [[| | | | |aud|]|]; try reflexivity.
  destruct (String.eqb _ _); [|reflexivity].
  rewrite (hasOwnProperty_run _ _ _ _ O). unfold own.
  destruct (m !! "upn"); [reflexivity|].
  rewrite (hasOwnProperty_run _ _ _ _ O). unfold own.
  destruct (m !! "email"); reflexivity.
Qed.

(** [_createUser] reads the configuration and nothing else. *)
Lemma createUser_config (idToken : string) (s s' : state) :
  config s' = config s ->
  _createUser idToken s'
  = match _createUser idToken s with
    | Return u _ => Return u s'
    | Throw e _ => Throw e s'
    end.
Proof.
  intros E. rewrite !createUser_run, E.
  destruct (_extractIdToken idToken) as [m|]; [|reflexivity].
  destruct (own m "hasOwnProperty"); [reflexivity|].
  destruct (m !! "aud") as [[]|]; try reflexivity.
  now destruct (String.eqb _ _).
Qed.

(** C4.  When [_createUser] builds an identity, the token decodes to a
    claim object whose [aud] is a string equal to the configured client id
    up to letter case; the identity carries these claims as its profile,
    and its [userName] is the [upn] claim when there is one, else the
    [email] claim when there is one, else the empty string.  (So a token
    without [aud], or with another [aud], builds none.) *)
Theorem createUser_identity (s s' : state) (idToken : string) (u : User) :
  _createUser idToken s = Return (Some u) s' ->
  s' = s
  /\ _extractIdToken idToken = Some (profile u)
  /\ (exists aud, profile u !! "aud" = Some (VStr aud)
                  /\ toLowerCase aud = toLowerCase (clientId (config s)))
  /\ userName u = match profile u !! "upn" with
                  | Some upn => upn
                  | None => match profile u !! "email" with
                            | Some email => email
                            | None => VStr ""
                            end
                  end.
Proof.
  rewrite createUser_run.
  destruct (_extractIdToken idToken) as [m|]; [|discriminate].
  destruct (own m "hasOwnProperty"); [discriminate|].
  destruct (m !! "aud") as [[| | | | |aud|]|] eqn:A; try discriminate.
  destruct (String.eqb_spec (toLowerCase aud) (toLowerCase (clientId (config s))))
    as [L|L]; [|discriminate].
  intros [= <- <-]. simpl. rewrite A. eauto 6.
Qed.

(** The other paths of [_createUser], for the record: no claims or no
    [aud] give [null], an [aud] string that differs gives [null]; an
    [aud] that is not a string raises, and so does a claim object with a
    claim named [hasOwnProperty]. *)
Lemma createUser_no_identity (s : state) (idToken : string) :
  match _extractIdToken idToken with
  | None => _createUser idToken s = Return None s
  | Some m =>
      if own m "hasOwnProperty" then _createUser idToken s = Throw TypeError s
      else
        match m !! "aud" with
        | None => _createUser idToken s = Return None s
        | Some (VStr aud) =>
            toLowerCase aud <> toLowerCase (clientId (config s)) ->
            _createUser idToken s = Return None s
        | Some _ => _createUser idToken s = Throw TypeError s
        end
  end.
Proof.
  rewrite createUser_run.
  destruct (_extractIdToken idToken) as [m|]; [|reflexivity].
  destruct (own m "hasOwnProperty"); [reflexivity|].
  destruct (m !! "aud") as [[| | | | |aud|]|]; try reflexivity.
  intros L. now destruct (String.eqb_spec (toLowerCase aud)
                            (toLowerCase (clientId (config s)))).
Qed.

(* ===================================================================== *)
(** ** Proofs: [getRequestInfo]                                           *)
(* ===================================================================== *)

Lemma same_fields_refl s : same_fields s s.
Proof. repeat split. Qed.

Lemma same_fields_trans s1 s2 s3 :
  same_fields s1 s2 -> same_fields s2 s3 -> same_fields s1 s3.
Proof. unfold same_fields. intuition congruence. Qed.

Lemma same_fields_set_store m s : same_fields s (set_store m s).
Proof.
  unfold set_store. destruct (uses_localStorage _); repeat split.
Qed.

Lemma same_fields_probe s : same_fields s (probe s).
Proof.
  unfold probe. destruct (storage_usable _);
    auto using same_fields_refl, same_fields_set_store.
Qed.

Lemma same_fields_put k x s : same_fields s (put k x s).
Proof.
  unfold put. destruct (storage_usable _);
    auto using same_fields_refl, same_fields_set_store.
Qed.

Lemma includes_item_list (s : state) (key x : string) :
  truthy (item s key) && includes x (Js.split_bars (or_empty (item s key)))
  = includes x (item_list s key).
Proof. unfold item_list. now destruct (truthy _). Qed.

Lemma includes_In (x : string) (l : list string) :
  includes x l = true <-> In x l.
Proof.
  unfold includes. rewrite existsb_exists. split.
  - intros (y & I & E). apply String.eqb_eq in E. now subst.
  - intros I. exists x. split; [exact I | apply String.eqb_refl].
Qed.

Lemma append_assoc (a b c : string) : (a +:+ b) +:+ c = a +:+ (b +:+ c).
Proof. induction a as [|x a IH]; [reflexivity|]. cbn [String.append]. now rewrite IH. Qed.

(** One step of [split('||')] on a character that is no bar, and on a bar
    that no bar follows. *)
Lemma split_bars_go_other (cur : string) (a : ascii) (s : string) :
  Ascii.eqb a "|" = false ->
  Js.split_bars_go cur (String a s) = Js.split_bars_go (cur +:+ String a "") s.
Proof.
  intros N. destruct a as [[] [] [] [] [] [] [] []]; try reflexivity; discriminate N.
Qed.

Lemma split_bars_go_bar (cur : string) (b : ascii) (s : string) :
  Ascii.eqb b "|" = false ->
  Js.split_bars_go cur (String "|" (String b s))
  = Js.split_bars_go (cur +:+ "|") (String b s).
Proof.
  intros N. destruct b as [[] [] [] [] [] [] [] []]; try reflexivity; discriminate N.
Qed.

Lemma split_bars_go_plain (x : string) :
  plain x = true ->
  forall cur rest,
    (rest = "" \/ exists rest', rest = "||" +:+ rest') ->
    Js.split_bars_go cur (x +:+ rest) = Js.split_bars_go (cur +:+ x) rest.
Proof.
  induction x as [|a x IH]; intros P cur rest R.
  - now rewrite append_empty_r.
  - cbn [plain] in P. cbn [String.append].
    destruct (Ascii.eqb a "|") eqn:A.
    + apply Ascii.eqb_eq in A. subst a.
      destruct x as [|b x]; [discriminate|].
      apply andb_true_iff in P as [N P]. apply negb_true_iff in N.
      cbn [String.append]. rewrite split_bars_go_bar by assumption.
      change (String b (x +:+ rest)) with (String b x +:+ rest).
      rewrite (IH P) by assumption. now rewrite append_assoc.
    + rewrite split_bars_go_other by assumption.
      rewrite (IH P) by assumption. now rewrite append_assoc.
Qed.

(** Splitting undoes joining: [l.join('||').split('||')] is [l] when the
    elements of [l] are plain. *)
Lemma split_bars_join (l : list string) :
  Forall (fun x => plain x = true) l -> l <> [] ->
  Js.split_bars (Js.join "||" l) = l.
Proof.
  unfold Js.split_bars. induction 1 as [|x l P _ IH]; intros N; [congruence|].
  destruct l as [|y l].
  - cbn [Js.join]. rewrite <- (append_empty_r x) at 1.
    rewrite split_bars_go_plain by auto. reflexivity.
  - change (Js.join "||" (x :: y :: l)) with (x +:+ "||" +:+ Js.join "||" (y :: l)).
    rewrite split_bars_go_plain by eauto.
    cbn [String.append Js.split_bars_go]. rewrite IH by discriminate. reflexivity.
Qed.

(** What the list of an item is: for the stored text [n1||n2||...||nk] of
    plain elements it is [n1; n2; ...; nk], and it is empty when nothing
    or the empty text is stored. *)
Lemma item_list_joined (s : state) (key : string) (l : list string) :
  item s key = Some (Js.join "||" l) ->
  Forall (fun x => plain x = true) l ->
  Js.join "||" l <> "" ->
  item_list s key = l.
Proof.
  intros I P N. unfold item_list. rewrite I. cbn [truthy or_empty].
  apply isEmpty_false in N. rewrite N. cbn [negb].
  apply split_bars_join; [exact P|]. intros ->. now apply isEmpty_false in N.
Qed.

Lemma item_list_nothing (s : state) (key : string) :
  item s key = None \/ item s key = Some "" -> item_list s key = [].
Proof. unfold item_list. now intros [-> | ->]. Qed.

Lemma matchState_run (ri : RequestInfo) (s : state) :
  _matchState ri s =
  if includes (stateResponse ri) (item_list s STORAGE.STATE_LOGIN) then
    Return (true, {| valid := valid ri; parameters := parameters ri;
                     stateMatch := true; stateResponse := stateResponse ri;
                     requestType := LOGIN |}) (probe s)
  else if includes (stateResponse ri) (item_list s STORAGE.STATE_RENEW) then
    Return (true, {| valid := valid ri; parameters := parameters ri;
                     stateMatch := true; stateResponse := stateResponse ri;
                     requestType := RENEW_TOKEN |}) (probe (probe s))
  else Return (false, ri) (probe (probe s)).
Proof.
  unfold _matchState. rewrite bind_getItem, includes_item_list.
  destruct (includes _ (item_list s STORAGE.STATE_LOGIN)); [reflexivity|].
  rewrite bind_getItem, item_probe, includes_item_list.
  now destruct (includes _ (item_list s STORAGE.STATE_RENEW)).
Qed.

(** The test that makes a parameter object a response. *)
Lemma is_response_run {B} (params : gmap string string) (K : bool -> M B) (s : state) :
  params !! "hasOwnProperty" = None ->
  bind (or_else (hasOwnProperty params ERROR_DESCRIPTION)
          (or_else (hasOwnProperty params ACCESS_TOKEN)
             (hasOwnProperty params ID_TOKEN))) K s
  = K (own params ERROR_DESCRIPTION || own params ACCESS_TOKEN || own params ID_TOKEN) s.
Proof.
  intros N. unfold or_else. rewrite bind_assoc, (hasOwnProperty_run _ _ _ _ N).
  destruct (own params ERROR_DESCRIPTION); [reflexivity|].
  rewrite bind_assoc, (hasOwnProperty_run _ _ _ _ N).
  destruct (own params ACCESS_TOKEN); [reflexivity|].
  now rewrite (hasOwnProperty_run _ _ _ _ N).
Qed.

Lemma getRequestInfo_raises (params : gmap string string) (s : state) :
  own params "hasOwnProperty" = true ->
  getRequestInfo params s = Throw TypeError s.
Proof.
  intros O. unfold getRequestInfo, or_else. rewrite bind_assoc.
  now apply hasOwnProperty_raises.
Qed.

(** C6 (as amended).  Take a parameter object with one of the parameters
    [error_description], [access_token], [id_token].  If it has a
    parameter named [hasOwnProperty], [getRequestInfo] raises a
    [TypeError].  Otherwise it returns with [valid] set, and: without a
    [state] parameter it stops there, no state match, request type
    UNKNOWN; with one, the state is looked for in the stored login states
    (LOGIN, match), then in the stored renewal states (RENEW_TOKEN,
    match); failing both, whenever [window.parent] is there (a top-level
    window is its own parent) the request type becomes the tracked
    [_requestType] and the state matches exactly when it is among the
    in-memory [_renewStates]; only without a parent are no match and
    UNKNOWN kept.  (The stored list of an item is what [split('||')]
    makes of its text, see [item_list_joined].) *)
Theorem getRequestInfo_classification (s : state) (params : gmap string string) :
  is_Some (params !! "error_description")
  \/ is_Some (params !! "access_token")
  \/ is_Some (params !! "id_token") ->
  match params !! "hasOwnProperty" with
  | Some _ => getRequestInfo params s = Throw TypeError s
  | None =>
      exists ri s',
        getRequestInfo params s = Return ri s'
        /\ valid ri = true
        /\ parameters ri = params
        /\ match params !! "state" with
           | None =>
               stateResponse ri = "" /\ stateMatch ri = false
               /\ requestType ri = UNKNOWN
           | Some st =>
               stateResponse ri = st
               /\ (In st (item_list s STORAGE.STATE_LOGIN) ->
                   stateMatch ri = true /\ requestType ri = LOGIN)
               /\ (~ In st (item_list s STORAGE.STATE_LOGIN) ->
                   In st (item_list s STORAGE.STATE_RENEW) ->
                   stateMatch ri = true /\ requestType ri = RENEW_TOKEN)
               /\ (~ In st (item_list s STORAGE.STATE_LOGIN) ->
                   ~ In st (item_list s STORAGE.STATE_RENEW) ->
                   (window_parent <> ParentNone ->
                    requestType ri = _requestType s
                    /\ (stateMatch ri = true <-> In st (_renewStates s)))
                   /\ (window_parent = ParentNone ->
                       stateMatch ri = false /\ requestType ri = UNKNOWN))
           end
  end.
Proof.
  intros V.
  destruct (params !! "hasOwnProperty") as [h|] eqn:H.
  { apply getRequestInfo_raises. unfold own. now rewrite H. }
  assert (own params ERROR_DESCRIPTION || own params ACCESS_TOKEN
          || own params ID_TOKEN = true) as V'.
  { unfold own, ERROR_DESCRIPTION, ACCESS_TOKEN, ID_TOKEN.
    destruct V as [[x ->]|[[x ->]|[x ->]]]; rewrite ?orb_true_r; reflexivity. }
  unfold getRequestInfo. rewrite (is_response_run _ _ _ H), V'.
  rewrite (hasOwnProperty_run _ _ _ _ H). unfold own.
  destruct (params !! "state") as [st|].
  2:{ eexists _, _. split; [reflexivity|]. simpl. auto. }
  cbn [negb or_empty].
  unfold bind at 1. rewrite matchState_run. cbn [stateResponse].
  destruct (includes st (item_list s STORAGE.STATE_LOGIN)) eqn:L.
  { apply includes_In in L. eexists _, _. split; [reflexivity|]. simpl.
    repeat split; auto; intros; tauto. }
  assert (~ In st (item_list s STORAGE.STATE_LOGIN)) as NL
    by (rewrite <- includes_In; congruence).
  destruct (includes st (item_list s STORAGE.STATE_RENEW)) eqn:R.
  { apply includes_In in R. eexists _, _. split; [reflexivity|]. simpl.
    repeat split; auto; intros; tauto. }
  assert (~ In st (item_list s STORAGE.STATE_RENEW)) as NR
    by (rewrite <- includes_In; congruence).
  unfold bind, get, ret. simpl.
  pose proof (same_fields_trans _ _ _ (same_fields_probe s)
                (same_fields_probe (probe s))) as F.
  destruct F as (_ & _ & _ & _ & _ & _ & RS & _ & _ & RT & _).
  destruct window_parent eqn:W; simpl.
  - eexists _, _. split; [reflexivity|]. simpl.
    repeat split; auto; intros; try tauto; congruence.
  - eexists _, _. split; [reflexivity|]. simpl. rewrite RS, RT.
    repeat split; auto; intros; try tauto; try congruence;
      try (now apply includes_In).
  - eexists _, _. split; [reflexivity|]. simpl. rewrite RS, RT.
    repeat split; auto; intros; try tauto; try congruence;
      try (now apply includes_In).
Qed.

(* ===================================================================== *)
(** ** Proofs: [saveTokenFromHash]                                        *)
(* ===================================================================== *)


Lemma bind_run {A B} (m : M A) (K : A -> M B) (s s1 : state) (a : A) :
  m s = Return a s1 -> bind m K s = K a s1.
Proof. unfold bind. now intros ->. Qed.

Lemma untouched_refl k s : untouched k s s.
Proof. split; reflexivity. Qed.

Lemma untouched_trans k s1 s2 s3 :
  untouched k s1 s2 -> untouched k s2 s3 -> untouched k s1 s3.
Proof. unfold untouched. intuition congruence. Qed.

Lemma untouched_set_store k m s :
  m !! k = store s !! k -> untouched k s (set_store m s).
Proof.
  unfold untouched, store, set_store.
  destruct (uses_localStorage (config s)); simpl; auto.
Qed.

Lemma untouched_probe k s : k <> "storageTest" -> untouched k s (probe s).
Proof.
  intros Hk. unfold probe. destruct (storage_usable _).
  - apply untouched_set_store. now rewrite lookup_delete_ne by congruence.
  - apply untouched_refl.
Qed.

Lemma untouched_put k x s k' :
  k' <> k -> k' <> "storageTest" -> untouched k' s (put k x s).
Proof.
  intros Hk Ht. unfold put. destruct (storage_usable _).
  - apply untouched_set_store.
    now rewrite lookup_insert_ne, lookup_delete_ne by congruence.
  - apply untouched_refl.
Qed.

Lemma writes_only_refl s : writes_only [] s s.
Proof. split; auto using untouched_refl. Qed.

Lemma writes_only_trans ks1 ks2 s1 s2 s3 :
  writes_only ks1 s1 s2 -> writes_only ks2 s2 s3 ->
  writes_only (ks1 ++ ks2)%list s1 s3.
Proof.
  intros [C1 U1] [C2 U2]. split; [congruence|].
  intros k Hk Ht. rewrite in_app_iff in Hk.
  eapply untouched_trans; [apply U1 | apply U2]; tauto.
Qed.

Lemma writes_only_mono ks ks' s s' :
  incl ks ks' -> writes_only ks s s' -> writes_only ks' s s'.
Proof. intros I [C U]. split; [exact C|]. intros k Hk. apply U. auto. Qed.

Lemma writes_only_probe s : writes_only [] s (probe s).
Proof. split; [apply config_probe|]. intros. now apply untouched_probe. Qed.

Lemma writes_only_put k x s : writes_only [k] s (put k x s).
Proof.
  split; [apply config_put|]. simpl. intros k' Hk Ht.
  apply untouched_put; [|exact Ht]. intros ->. tauto.
Qed.

Lemma item_writes_only ks s s' k :
  writes_only ks s s' -> ~ In k ks -> item s' k = item s k.
Proof.
  intros [C U] Hk. unfold item. rewrite C.
  destruct (storage_usable (config s)) eqn:Us; [|reflexivity].
  rewrite store_probe by now rewrite C. rewrite store_probe by assumption.
  destruct (decide (k = "storageTest")) as [->|Ht].
  - now rewrite !lookup_delete_eq.
  - rewrite !lookup_delete_ne by congruence.
    destruct (U k Hk Ht) as [UL USs]. unfold store. rewrite C.
    now destruct (uses_localStorage (config s)).
Qed.

Lemma lip_set_store m s : _loginInProgress (set_store m s) = _loginInProgress s.
Proof. unfold set_store. now destruct (uses_localStorage _). Qed.

Lemma lip_put k x s : _loginInProgress (put k x s) = _loginInProgress s.
Proof. unfold put. destruct (storage_usable _); auto using lip_set_store. Qed.

Lemma lip_probe s : _loginInProgress (probe s) = _loginInProgress s.
Proof. unfold probe. destruct (storage_usable _); auto using lip_set_store. Qed.

Lemma same_fields_set_lip b s : same_fields s (set_loginInProgress b s).
Proof. repeat split. Qed.

Lemma writes_only_set_lip b s : writes_only [] s (set_loginInProgress b s).
Proof. split; [reflexivity|]. intros. split; reflexivity. Qed.

Lemma writes_only_set_user u s : writes_only [] s (set_user u s).
Proof. split; [reflexivity|]. intros. split; reflexivity. Qed.

Lemma item_set_lip b s k : item (set_loginInProgress b s) k = item s k.
Proof. apply (item_writes_only [] _ _ k (writes_only_set_lip b s)). simpl. tauto. Qed.


Lemma record_error_run (ri : RequestInfo) (s : state) :
  record_error ri s = Return tt
    (let s2 := put STORAGE.ERROR_DESCRIPTION
                 (ToString (param (parameters ri) ERROR_DESCRIPTION))
                 (put STORAGE.ERROR (ToString (param (parameters ri) "error")) s) in
     match requestType ri with
     | LOGIN => put STORAGE.LOGIN_ERROR
                  (ToString (param (parameters ri) "error_description"))
                  (set_loginInProgress false s2)
     | _ => s2
     end).
Proof.
  unfold record_error. rewrite bind_saveItem, bind_saveItem.
  destruct (requestType ri); try reflexivity.
  unfold bind at 1, modify at 1. rewrite bind_saveItem. reflexivity.
Qed.

Lemma startsWith_bar_free (g rest : string) (c : ascii) :
  free_of ["|"]%char (String c g) = true ->
  Js.startsWith "|" (String c g +:+ rest) = false.
Proof.
  cbn [free_of existsb]. rewrite andb_true_iff, negb_true_iff, orb_false_r.
  intros [N _]. cbn [String.append Js.startsWith].
  rewrite Ascii.eqb_sym in N. now rewrite N.
Qed.

Lemma indexOf_from_bar (g rest : string) :
  free_of ["|"]%char g = true ->
  forall i, Js.indexOf_from i "|" (g +:+ "|" +:+ rest) = i + Js.length g.
Proof.
  induction g as [|c g IH]; intros F i.
  - cbn. unfold Js.length. cbn. lia.
  - cbn [String.append Js.indexOf_from].
    pose proof (startsWith_bar_free g ("|" +:+ rest) c F) as N.
    cbn [String.append] in N. rewrite N.
    cbn [free_of] in F. rewrite andb_true_iff in F. destruct F as [_ F].
    rewrite (IH F). unfold Js.length. cbn [String.length]. lia.
Qed.

Lemma indexOf_from_none (g : string) :
  free_of ["|"]%char g = true -> forall i, Js.indexOf_from i "|" g = -1.
Proof.
  induction g as [|c g IH]; intros F i; [reflexivity|].
  cbn [Js.indexOf_from].
  pose proof (startsWith_bar_free g "" c F) as N.
  replace (String c g +:+ "") with (String c g) in N
    by (clear; induction (String c g) as [|a r IH]; [reflexivity|];
        cbn [String.append]; now rewrite <- IH).
  rewrite N.
  cbn [free_of] in F. rewrite andb_true_iff in F. destruct F as [_ F]. now apply IH.
Qed.

Lemma drop_app (g rest : string) : Js.drop (String.length g) (g +:+ rest) = rest.
Proof. induction g as [|c g IH]; [now destruct rest|]. exact IH. Qed.

Lemma length_app (a b : string) : Js.length (a +:+ b) = Js.length a + Js.length b.
Proof.
  unfold Js.length. induction a as [|c a IH]; [reflexivity|].
  cbn [String.append String.length]. lia.
Qed.

(** [_getResourceFromState] on a state as [_getNavigateUrl] and the renewal
    build it, an identifier without a bar, then a bar and the resource: it
    gives the resource back; on an identifier alone it gives the empty
    string. *)
Lemma getResourceFromState_inverts (guid resource : string) :
  free_of ["|"]%char guid = true ->
  _getResourceFromState (guid +:+ "|" +:+ resource) = resource
  /\ _getResourceFromState guid = "".
Proof.
  intros F. split.
  - unfold _getResourceFromState.
    assert (_isEmpty (guid +:+ "|" +:+ resource) = false) as ->.
    { destruct guid; reflexivity. }
    cbn [negb]. unfold Js.indexOf. rewrite indexOf_from_bar by assumption.
    rewrite !length_app. change (Js.length "|") with 1.
    assert (0 <= Js.length guid) by (unfold Js.length; lia).
    assert (0 <= Js.length resource) by (unfold Js.length; lia).
    match goal with |- context [Z.gtb ?a ?b] =>
      replace (Z.gtb a b) with true by (symmetry; apply Z.gtb_lt; lia)
    end.
    cbn [andb].
    match goal with |- context [Z.ltb ?a ?b] => destruct (Z.ltb_spec a b) as [L|L] end.
    + unfold Js.substring_from.
      replace (Z.to_nat (0 + Js.length guid + 1)) with (String.length (guid +:+ "|")).
      * rewrite <- append_assoc. apply drop_app.
      * pose proof (length_app guid "|") as E. unfold Js.length in *.
        cbn [String.length] in E. lia.
    + destruct resource as [|c resource]; [reflexivity|].
      unfold Js.length in L. cbn [String.length] in L. lia.
  - unfold _getResourceFromState. destruct (negb (_isEmpty guid)); [|reflexivity].
    unfold Js.indexOf. rewrite indexOf_from_none by assumption. reflexivity.
Qed.

(** On the [error_description] path the method is the following run of
    writes. *)
Lemma saveTokenFromHash_error_run (ri : RequestInfo) (s : state) :
  parameters ri !! "hasOwnProperty" = None ->
  own (parameters ri) ERROR_DESCRIPTION = true ->
  saveTokenFromHash ri s = Return ri
    (put (STORAGE.RENEW_STATUS +:+ _getResourceFromState (stateResponse ri))
         TOKEN_RENEW_STATUS_COMPLETED
       (let s2 := put STORAGE.ERROR_DESCRIPTION
                    (ToString (param (parameters ri) ERROR_DESCRIPTION))
                    (put STORAGE.ERROR (ToString (param (parameters ri) "error"))
                       (put STORAGE.ERROR_DESCRIPTION ""
                          (put STORAGE.ERROR "" s))) in
        match requestType ri with
        | LOGIN => put STORAGE.LOGIN_ERROR
                     (ToString (param (parameters ri) "error_description"))
                     (set_loginInProgress false s2)
        | _ => s2
        end)).
Proof.
  intros N E. unfold saveTokenFromHash.
  rewrite bind_saveItem, bind_saveItem. cbv zeta.
  rewrite bind_assoc, (hasOwnProperty_run _ _ _ _ N), E.
  rewrite bind_assoc. erewrite bind_run by apply record_error_run.
  unfold bind at 1, ret at 1. simpl. rewrite bind_saveItem. reflexivity.
Qed.

(** With a parameter named [hasOwnProperty] the first test of the method
    raises, after the two error keys were emptied. *)
Lemma saveTokenFromHash_raises (ri : RequestInfo) (s : state) :
  own (parameters ri) "hasOwnProperty" = true ->
  saveTokenFromHash ri s
  = Throw TypeError (put STORAGE.ERROR_DESCRIPTION "" (put STORAGE.ERROR "" s)).
Proof.
  intros O. unfold saveTokenFromHash.
  rewrite bind_saveItem, bind_saveItem. cbv zeta.
  rewrite bind_assoc. now apply hasOwnProperty_raises.
Qed.

(** C10.  Let the parameters carry [error_description].  The save step
    returns normally and leaves [requestInfo] as it was, unless the
    parameters also carry one named [hasOwnProperty]: then its first test
    raises a [TypeError].  Either way, of the instance fields only
    [_loginInProgress] may change, and it does only for a LOGIN request
    when the step returns; in storage only the two error keys, the renewal
    status of the resource, the login-error key for a LOGIN request (and
    the key of the probe) may change: for every resource the access-token
    key and the expiration key, and the key of the identity token, read as
    before.  With a usable store, when the step returns, the error, its
    description and the status [Completed] are what the three keys then
    hold; when it raises, the two error keys are empty. *)
Theorem saveTokenFromHash_error_frame (s : state) (ri : RequestInfo) :
  is_Some (parameters ri !! "error_description") ->
  exists s',
    match parameters ri !! "hasOwnProperty" with
    | None =>
        saveTokenFromHash ri s = Return ri s'
        /\ _loginInProgress s'
           = match requestType ri with LOGIN => false | _ => _loginInProgress s end
        /\ (storage_usable (config s) = true ->
            item s' STORAGE.ERROR = Some (ToString (param (parameters ri) "error"))
            /\ item s' STORAGE.ERROR_DESCRIPTION
               = Some (ToString (param (parameters ri) "error_description"))
            /\ item s' (STORAGE.RENEW_STATUS
                        +:+ _getResourceFromState (stateResponse ri))
               = Some "Completed")
    | Some _ =>
        saveTokenFromHash ri s = Throw TypeError s'
        /\ _loginInProgress s' = _loginInProgress s
        /\ (storage_usable (config s) = true ->
            item s' STORAGE.ERROR = Some ""
            /\ item s' STORAGE.ERROR_DESCRIPTION = Some "")
    end
    /\ same_fields s s'
    /\ writes_only
         ([STORAGE.ERROR; STORAGE.ERROR_DESCRIPTION;
           STORAGE.RENEW_STATUS +:+ _getResourceFromState (stateResponse ri)]
          ++ match requestType ri with LOGIN => [STORAGE.LOGIN_ERROR] | _ => [] end)
         s s'
    /\ (forall r, untouched (STORAGE.ACCESS_TOKEN_KEY +:+ r) s s'
                  /\ untouched (STORAGE.EXPIRATION_KEY +:+ r) s s')
    /\ untouched STORAGE.IDTOKEN s s'.
Proof.
  intros E.
  assert (own (parameters ri) ERROR_DESCRIPTION = true) as E'
    by (unfold own, ERROR_DESCRIPTION; now destruct E as [x ->]).
  set (res := _getResourceFromState (stateResponse ri)).
  set (s0 := put STORAGE.ERROR_DESCRIPTION "" (put STORAGE.ERROR "" s)).
  assert (same_fields s s0) as F0.
  { repeat (eapply same_fields_trans; [|apply same_fields_put]).
    apply same_fields_refl. }
  assert (writes_only [STORAGE.ERROR; STORAGE.ERROR_DESCRIPTION] s s0) as W0.
  { exact (writes_only_trans _ _ _ _ _ (writes_only_put STORAGE.ERROR "" s)
             (writes_only_put STORAGE.ERROR_DESCRIPTION "" _)). }
  assert (forall k, k <> STORAGE.ERROR -> k <> STORAGE.ERROR_DESCRIPTION ->
                    k <> "storageTest" -> untouched k s s0) as U0.
  { intros k K1 K2 K3. apply W0; [|exact K3]. simpl. intuition congruence. }
  set (e1 := ToString (param (parameters ri) "error")).
  set (e2 := ToString (param (parameters ri) ERROR_DESCRIPTION)).
  set (s2 := put STORAGE.ERROR_DESCRIPTION e2 (put STORAGE.ERROR e1 s0)).
  assert (same_fields s s2) as F2.
  { eapply same_fields_trans; [exact F0|].
    eapply same_fields_trans; apply same_fields_put. }
  assert (writes_only [STORAGE.ERROR; STORAGE.ERROR_DESCRIPTION] s s2) as W2.
  { eapply writes_only_mono;
      [|exact (writes_only_trans _ _ _ _ _
                (writes_only_trans _ _ _ _ _ W0
                  (writes_only_put STORAGE.ERROR e1 _))
                (writes_only_put STORAGE.ERROR_DESCRIPTION e2 _))].
    intros k. simpl. tauto. }
  assert (_loginInProgress s2 = _loginInProgress s) as L2
    by (unfold s2, s0; now rewrite !lip_put).
  assert (config s2 = config s) as C2 by apply W2.
  set (s3 := match requestType ri with
             | LOGIN => put STORAGE.LOGIN_ERROR
                          (ToString (param (parameters ri) "error_description"))
                          (set_loginInProgress false s2)
             | _ => s2
             end).
  assert (same_fields s s3 /\
          _loginInProgress s3
          = match requestType ri with LOGIN => false | _ => _loginInProgress s end /\
          writes_only ([STORAGE.ERROR; STORAGE.ERROR_DESCRIPTION]
             ++ match requestType ri with LOGIN => [STORAGE.LOGIN_ERROR] | _ => [] end)
             s s3 /\
          (storage_usable (config s) = true ->
           item s3 STORAGE.ERROR = Some e1 /\ item s3 STORAGE.ERROR_DESCRIPTION = Some e2))
    as (F3 & L3 & W3 & I3).
  { assert (storage_usable (config s) = true ->
            item s2 STORAGE.ERROR = Some e1 /\ item s2 STORAGE.ERROR_DESCRIPTION = Some e2)
      as I2.
    { intros U. unfold s2. split.
      - rewrite item_put_ne by key_neq.
        apply item_put_eq; [|key_neq]. unfold s0. now rewrite !config_put.
      - apply item_put_eq; [|key_neq]. unfold s0. now rewrite !config_put. }
    subst s3. destruct (requestType ri).
    - split; [|split; [|split]].
      + eapply same_fields_trans; [|apply same_fields_put].
        eapply same_fields_trans; [exact F2 | apply same_fields_set_lip].
      + now rewrite lip_put.
      + eapply writes_only_trans; [exact W2|].
        exact (writes_only_trans _ _ _ _ _ (writes_only_set_lip false s2)
                 (writes_only_put _ _ _)).
      + intros U. rewrite !item_put_ne by key_neq. rewrite !item_set_lip.
        exact (I2 U).
    - rewrite app_nil_r. auto.
    - rewrite app_nil_r. auto. }
  assert (config s3 = config s) as C3 by apply W3.
  destruct (parameters ri !! "hasOwnProperty") as [h|] eqn:H.
  { exists s0. split; [|split; [|split; [|split]]].
    - split; [apply saveTokenFromHash_raises; unfold own; now rewrite H|].
      split; [unfold s0; now rewrite !lip_put|].
      intros U. unfold s0. split.
      + rewrite item_put_ne by key_neq. apply item_put_eq; [exact U | key_neq].
      + apply item_put_eq; [now rewrite config_put | key_neq].
    - exact F0.
    - eapply writes_only_mono; [|exact W0].
      intros k. rewrite in_app_iff. simpl. tauto.
    - intros r. split; apply U0; key_neq.
    - apply U0; key_neq. }
  exists (put (STORAGE.RENEW_STATUS +:+ res) TOKEN_RENEW_STATUS_COMPLETED s3).
  split; [split; [apply (saveTokenFromHash_error_run ri s H E')|]|].
  - split; [now rewrite lip_put|].
    intros U. destruct (I3 U) as [I3a I3b]. split; [|split].
    + now rewrite item_put_ne by key_neq.
    + now rewrite item_put_ne by key_neq.
    + apply item_put_eq; [now rewrite C3 | key_neq].
  - split; [|split; [|split]].
    + eapply same_fields_trans; [exact F3 | apply same_fields_put].
    + eapply writes_only_mono;
        [|exact (writes_only_trans _ _ _ _ _ W3 (writes_only_put _ _ _))].
      intros k. rewrite !in_app_iff. simpl. tauto.
    + intros r. split.
      * eapply untouched_trans; [|apply untouched_put; key_neq].
        apply W3; [|key_neq].
        destruct (requestType ri); simpl; intros [K|[K|K]];
          try (revert K; key_neq); try tauto;
          destruct K as [K|K]; [revert K; key_neq | tauto].
      * eapply untouched_trans; [|apply untouched_put; key_neq].
        apply W3; [|key_neq].
        destruct (requestType ri); simpl; intros [K|[K|K]];
          try (revert K; key_neq); try tauto;
          destruct K as [K|K]; [revert K; key_neq | tauto].
    + eapply untouched_trans; [|apply untouched_put; key_neq].
      apply W3; [|key_neq].
      destruct (requestType ri); simpl; intros [K|[K|K]];
        try (revert K; key_neq); try tauto;
        destruct K as [K|K]; [revert K; key_neq | tauto].
Qed.

Lemma user_put k x s : _user (put k x s) = _user s.
Proof. apply (same_fields_put k x s). Qed.

Lemma user_probe s : _user (probe s) = _user s.
Proof. apply (same_fields_probe s). Qed.

Lemma record_session_state_run (params : gmap string string) (s : state) :
  params !! "hasOwnProperty" = None ->
  exists s', record_session_state params s = Return tt s'
             /\ writes_only [STORAGE.SESSION_STATE] s s'.
Proof.
  intros N. unfold record_session_state. rewrite (hasOwnProperty_run _ _ _ _ N).
  destruct (own _ _).
  - rewrite bind_saveItem. eexists. split; [reflexivity|].
    apply writes_only_put.
  - exists s. split; [reflexivity|].
    eapply writes_only_mono; [|apply writes_only_refl]. intros k [].
Qed.

Lemma index_resource_run (resource : string) (s : state) :
  exists s', index_resource resource s = Return tt s'
             /\ _user s' = _user s
             /\ writes_only [STORAGE.TOKEN_KEYS] s s'.
Proof.
  unfold index_resource, _hasResource. rewrite bind_assoc, bind_getItem.
  unfold bind at 1, ret at 1. destruct (negb _).
  - rewrite bind_getItem, bind_saveItem. eexists. split; [reflexivity|]. split.
    + now rewrite user_put, !user_probe.
    + eapply writes_only_mono;
        [|exact (writes_only_trans _ _ _ _ _
                  (writes_only_trans _ _ _ _ _ (writes_only_probe s)
                     (writes_only_probe _))
                  (writes_only_put _ _ _))].
      intros k. simpl. tauto.
  - eexists. split; [reflexivity|]. split; [apply user_probe|].
    eapply writes_only_mono; [|apply writes_only_probe]. intros k [].
Qed.

Lemma record_access_token_run (params : gmap string string) (resource : string)
    (s : state) :
  params !! "hasOwnProperty" = None ->
  exists s', record_access_token params resource s = Return tt s'
             /\ writes_only [STORAGE.TOKEN_KEYS;
                             STORAGE.ACCESS_TOKEN_KEY +:+ resource;
                             STORAGE.EXPIRATION_KEY +:+ resource] s s'.
Proof.
  intros N. unfold record_access_token. rewrite (hasOwnProperty_run _ _ _ _ N).
  destruct (own _ _).
  - destruct (index_resource_run resource s) as (s1 & R1 & _ & W1).
    erewrite bind_run by exact R1. rewrite bind_saveItem, bind_saveItem.
    eexists. split; [reflexivity|].
    eapply writes_only_mono;
      [|exact (writes_only_trans _ _ _ _ _
                (writes_only_trans _ _ _ _ _ W1 (writes_only_put _ _ _))
                (writes_only_put _ _ _))].
    intros k. simpl. tauto.
  - exists s. split; [reflexivity|].
    eapply writes_only_mono; [|apply writes_only_refl]. intros k [].
Qed.





Lemma own_Some {A} (m : gmap string A) (k : string) (v : A) :
  m !! k = Some v -> own m k = true.
Proof. unfold own. now intros ->. Qed.



(** The other two ways the identity-token block can go, for the record:
    a token that builds no identity leaves [_user] unset and records
    "invalid id_token" under the error key; an [aud] that is not a string
    makes the block raise after [_loginInProgress] was cleared. *)
Lemma record_id_token_rejected (ri : RequestInfo) (res : string) (s : state)
    (tok : string) :
  parameters ri !! "hasOwnProperty" = None ->
  parameters ri !! ID_TOKEN = Some tok ->
  _createUser tok s = Return None s ->
  exists s',
    record_id_token ri res s
    = Return (with_error ri "invalid id_token" ("Invalid id_token. id_token: " +:+ tok),
              res) s'
    /\ _user s' = None
    /\ writes_only [STORAGE.ERROR; STORAGE.ERROR_DESCRIPTION] s s'
    /\ (storage_usable (config s) = true ->
        item s' STORAGE.ERROR = Some "invalid id_token").
Proof.
  intros N T CU. unfold record_id_token. cbv zeta.
  rewrite (hasOwnProperty_run _ _ _ _ N), (own_Some _ _ _ T), T. simpl or_empty.
  unfold bind at 1, modify at 1.
  erewrite bind_run.
  2:{ rewrite (createUser_config tok s) by reflexivity. rewrite CU. reflexivity. }
  unfold bind at 1, modify at 1. cbv beta.
  unfold param. rewrite T. rewrite bind_saveItem, bind_saveItem. unfold ret.
  eexists. split; [reflexivity|]. split; [|split].
  - now rewrite !user_put.
  - eapply writes_only_mono;
      [|exact (writes_only_trans _ _ _ _ _
                (writes_only_trans _ _ _ _ _
                  (writes_only_trans _ _ _ _ _ (writes_only_set_lip false s)
                     (writes_only_set_user None _))
                  (writes_only_put STORAGE.ERROR _ _))
                (writes_only_put STORAGE.ERROR_DESCRIPTION _ _))].
    intros k. simpl. tauto.
  - intros U. rewrite item_put_ne by key_neq.
    apply item_put_eq; [exact U | key_neq].
Qed.

Lemma record_id_token_raises (ri : RequestInfo) (res : string) (s : state)
    (tok : string) :
  parameters ri !! "hasOwnProperty" = None ->
  parameters ri !! ID_TOKEN = Some tok ->
  _createUser tok s = Throw TypeError s ->
  record_id_token ri res s = Throw TypeError (set_loginInProgress false s).
Proof.
  intros N T CU. unfold record_id_token. cbv zeta.
  rewrite (hasOwnProperty_run _ _ _ _ N), (own_Some _ _ _ T), T. simpl or_empty.
  unfold bind at 1, modify at 1. unfold bind at 1.
  rewrite (createUser_config tok s) by reflexivity. now rewrite CU.
Qed.


(** The save step on a response of the same kind whose [id_token] yields
    no identity (it does not decode, or its [aud] is missing or another
    one): the nonce list is not read, nobody is logged in, the error
    "invalid id_token" is recorded, and neither a login error nor the
    token is stored. *)
Lemma saveTokenFromHash_no_identity (s : state) (ri : RequestInfo) (tok : string) :
  storage_usable (config s) = true ->
  parameters ri !! "hasOwnProperty" = None ->
  own (parameters ri) ERROR_DESCRIPTION = false ->
  stateMatch ri = true ->
  parameters ri !! ID_TOKEN = Some tok ->
  _createUser tok s = Return None s ->
  exists s',
    saveTokenFromHash ri s
    = Return (with_error ri "invalid id_token" ("Invalid id_token. id_token: " +:+ tok)) s'
    /\ _user s' = None
    /\ item s' STORAGE.ERROR = Some "invalid id_token"
    /\ item s' STORAGE.LOGIN_ERROR = item s STORAGE.LOGIN_ERROR
    /\ item s' STORAGE.IDTOKEN = item s STORAGE.IDTOKEN.
Proof.
  intros U N E SM T CU. unfold saveTokenFromHash.
  rewrite bind_saveItem, bind_saveItem. cbv zeta.
  rewrite bind_assoc, (hasOwnProperty_run _ _ _ _ N), E, SM.
  set (s0 := put STORAGE.ERROR_DESCRIPTION _ (put STORAGE.ERROR _ s)).
  assert (writes_only [STORAGE.ERROR; STORAGE.ERROR_DESCRIPTION] s s0) as W0.
  { exact (writes_only_trans _ _ _ _ _ (writes_only_put STORAGE.ERROR _ s)
             (writes_only_put STORAGE.ERROR_DESCRIPTION _ _)). }
  destruct (record_session_state_run (parameters ri) s0 N) as (s1 & R1 & W1).
  destruct (record_access_token_run (parameters ri)
              (_getResourceFromState (stateResponse ri)) s1 N) as (s2 & R2 & W2).
  pose proof (writes_only_trans _ _ _ _ _ (writes_only_trans _ _ _ _ _ W0 W1) W2) as W.
  assert (config s2 = config s) as C2 by apply W.
  destruct (record_id_token_rejected ri (_getResourceFromState (stateResponse ri))
              s2 tok N T) as (s3 & R3 & U3 & W3 & I3).
  { rewrite (createUser_config tok s) by exact C2. now rewrite CU. }
  pose proof (writes_only_trans _ _ _ _ _ W W3) as W'.
  rewrite !bind_assoc, (bind_run _ _ _ _ _ R1). cbv beta.
  rewrite !bind_assoc, (bind_run _ _ _ _ _ R2). cbv beta.
  rewrite (bind_run _ _ _ _ _ R3). cbv beta. simpl fst. simpl snd.
  rewrite bind_saveItem. unfold ret.
  eexists. split; [reflexivity|].
  split; [now rewrite user_put|].
  split; [|split].
  - rewrite item_put_ne by key_neq. apply I3. now rewrite C2.
  - rewrite item_put_ne by key_neq.
    apply (item_writes_only _ _ _ _ W'). rewrite !in_app_iff. simpl.
    intros K. repeat destruct K as [K|K]; try (revert K; key_neq); tauto.
  - rewrite item_put_ne by key_neq.
    apply (item_writes_only _ _ _ _ W'). rewrite !in_app_iff. simpl.
    intros K. repeat destruct K as [K|K]; try (revert K; key_neq); tauto.
Qed.


(* ===================================================================== *)
(** ** Proofs: the authorization URL                                      *)
(* ===================================================================== *)

(** [_serialize] reads neither [responseType] nor [resource]: the URL is
    the same for every response type and every requested resource. *)
Lemma getNavigateUrl_ignores_arguments (s : state) (responseType responseType' : string)
    (resource resource' : option string) :
  _getNavigateUrl s responseType resource = _getNavigateUrl s responseType' resource'.
Proof. reflexivity. Qed.

(** The parameters the URL starts with, the [resource] parameter being the
    client id. *)
Lemma getNavigateUrl_prefix (s : state) (responseType : string) (resource : option string) :
  exists rest,
    _getNavigateUrl s responseType resource
    = instance s
      +:+ (if truthy (tenant (config s)) then or_empty (tenant (config s)) else "common")
      +:+ "/oauth2/authorize"
      +:+ ("?response_type=id_token token&"
           +:+ ("client_id=" +:+ encodeURIComponent (clientId (config s))) +:+ "&"
           +:+ ("resource=" +:+ encodeURIComponent (clientId (config s))) +:+ "&"
           +:+ ("redirect_uri=" +:+ encodeURIComponent (redirectUri (config s))) +:+ "&"
           +:+ ("state=" +:+ encodeURIComponent
                               (ToString (of_property (state_ (config s))))) +:+ "&"
           +:+ rest)
      +:+ "&x-client-SKU=Js&x-client-Ver=1.0.17".
Proof.
  unfold _getNavigateUrl, _serialize, _addLibMetadata, _libVersion.
  destruct (slice (config s)), (extraQueryParameter (config s));
    eexists; reflexivity.
Qed.

(* ===================================================================== *)
(** ** Proofs: [getResourceForEndpoint]                                   *)
(* ===================================================================== *)













(* ===================================================================== *)
(** ** Proofs: the token-acquisition entry points                         *)
(* ===================================================================== *)

(** With an empty resource, [acquireToken] and [acquireTokenPopup] hand
    the failure to a callback that is a function. *)
Lemma acquireToken_empty_resource (s : state) (id : nat) :
  acquireToken "" (CbFun id Returns) s
  = Return Delivered (set_calls (calls s ++ [(id, resource_required)])%list s).
Proof. reflexivity. Qed.

Lemma acquireTokenPopup_empty_resource (s : state) (id : nat) :
  acquireTokenPopup "" (CbFun id Returns) s
  = Return Delivered (set_calls (calls s ++ [(id, resource_required)])%list s).
Proof. reflexivity. Qed.

(** Without an identity, [acquireTokenPopup] does the same. *)
Lemma acquireTokenPopup_no_user (s : state) (resource : string) (id : nat) :
  resource <> "" -> _user s = None ->
  acquireTokenPopup resource (CbFun id Returns) s
  = Return Delivered (set_calls (calls s ++ [(id, login_required)])%list s).
Proof.
  intros R Us. unfold acquireTokenPopup. apply isEmpty_false in R. rewrite R.
  unfold bind, get. rewrite Us. reflexivity.
Qed.

(** [getCachedToken] touches storage only. *)
Lemma getCachedToken_same_fields (s s1 : state) (R : string) (t : option string) :
  getCachedToken R s = Return t s1 -> same_fields s s1.
Proof.
  rewrite getCachedToken_run. destruct (_ && _); intros [= _ <-].
  - exact (same_fields_trans _ _ _ (same_fields_probe s) (same_fields_probe _)).
  - repeat (eapply same_fields_trans; [|apply same_fields_put]).
    exact (same_fields_trans _ _ _ (same_fields_probe s) (same_fields_probe _)).
Qed.

(** Without an identity, without a login hint and without a usable cached
    token, [acquireToken] hands "login required" to the callback. *)
Lemma acquireToken_no_user (s s1 : state) (resource : string) (t : option string)
    (id : nat) :
  resource <> "" -> _user s = None -> extraQueryParameter (config s) = None ->
  getCachedToken resource s = Return t s1 -> truthy t = false ->
  acquireToken resource (CbFun id Returns) s
  = Return Delivered (set_calls (calls s1 ++ [(id, login_required)])%list s1).
Proof.
  intros R Us Q G T. unfold acquireToken. apply isEmpty_false in R. rewrite R.
  rewrite (bind_run _ _ _ _ _ G). cbv beta. rewrite T.
  destruct (getCachedToken_same_fields _ _ _ _ G)
    as (C & _ & _ & U1 & _).
  unfold bind at 1, get at 1. rewrite U1, Us, C, Q. reflexivity.
Qed.

(** [acquireTokenRedirect] with a resource, no identity, and a configured
    callback that is a function: the failure goes to that callback. *)
Lemma acquireTokenRedirect_no_user (s : state) (resource : string) (id : nat) :
  resource <> "" -> _user s = None -> callback s = CbFun id Returns ->
  acquireTokenRedirect resource s
  = Return Delivered (set_calls (calls s ++ [(id, login_required)])%list s).
Proof.
  intros R Us Cb. unfold acquireTokenRedirect. apply isEmpty_false in R. rewrite R.
  unfold bind, get. rewrite Us, Cb. reflexivity.
Qed.

(** C9, at the input where the code departs from it.  Called with an
    empty resource, [acquireTokenRedirect] calls the name [callback]
    before [this.callback] is assigned to it: a [TypeError] leaves the
    method, whatever the state and whatever callback is configured, and no
    callback is called. *)
Theorem acquireTokenRedirect_empty_resource_throws (s : state) :
  acquireTokenRedirect "" s = Throw TypeError s.
Proof. reflexivity. Qed.

End Plugin.

(* ===================================================================== *)
(** ** The theorems at concrete inputs                                    *)
(* ===================================================================== *)

Section Examples.

#[local] Existing Instance Demo.top_level_window.


(** Three callbacks for state [s-1] (the second raises an exception that
    can be logged), one for [s-2]: the dispatcher of [s-1] calls the three
    in order, once. *)
Lemma dispatcher_single_delivery_example :
  exists s1 s2,
    register_all Demo.regs Demo.st = Return tt s1
    /\ call_mapped "s-1" Demo.token_args s1 = Return tt s2
    /\ calls s2 = [(1%nat, Demo.token_args); (2%nat, Demo.token_args);
                   (3%nat, Demo.token_args)]
    /\ _activeRenewals s2 !! "r1" = Some None
    /\ call_mapped "s-1" Demo.token_args s2 = Return tt s2.
Proof.
  destruct (dispatcher_single_delivery Demo.st Demo.regs "s-1"
              Demo.token_args Demo.token_args eq_refl eq_refl)
    as (s1 & r & s2 & R & C1 & Fr & _ & C & Cs & A & _ & _ & Again).
  { discriminate. }
  { reflexivity. }
  exists s1, s2. injection Fr as <-.
  split; [exact R|]. split; [exact C|].
  split; [rewrite Cs, C1; reflexivity|]. split; [exact A | exact Again].
Qed.

(** Four callbacks for state [s-1]; the third throws a value that has no
    string conversion.  The dispatcher calls the first three and raises:
    the fourth is not called and both entries of [s-1] stay set, so the
    dispatcher, called again (by the time-out of the renewal, say), calls
    the first three a second time. *)
Lemma dispatcher_stops_at_unprintable_exception_witness :
  (is_set (_callBacksMappedToRenewStates Demo.st !! "s-1") = false
   /\ is_set (_callBackMappedToRenewStates Demo.st !! "s-1") = false
   /\ registered "s-1" Demo.regs_symbol
      = [CbFun 1 Returns; CbFun 2 (Throws true); CbFun 4 (Throws false);
         CbFun 3 Returns]
   /\ forallb quiet [CbFun 1 Returns; CbFun 2 (Throws true)] = true)
  /\ exists s1 s2 s3,
       register_all Demo.regs_symbol Demo.st = Return tt s1
       /\ call_mapped "s-1" Demo.token_args s1 = Throw TypeError s2
       /\ calls s2 = [(1%nat, Demo.token_args); (2%nat, Demo.token_args);
                      (4%nat, Demo.token_args)]
       /\ _activeRenewals s2 !! "r1" = Some None
       /\ is_set (_callBacksMappedToRenewStates s2 !! "s-1") = true
       /\ is_set (_callBackMappedToRenewStates s2 !! "s-1") = true
       /\ call_mapped "s-1" Demo.error_args s2 = Throw TypeError s3
       /\ calls s3 = [(1%nat, Demo.token_args); (2%nat, Demo.token_args);
                      (4%nat, Demo.token_args); (1%nat, Demo.error_args);
                      (2%nat, Demo.error_args); (4%nat, Demo.error_args)].
Proof.
  split; [repeat split; reflexivity|].
  destruct (dispatcher_stops_at_unprintable_exception Demo.st Demo.regs_symbol "s-1"
              Demo.token_args Demo.error_args
              [CbFun 1 Returns; CbFun 2 (Throws true)] [CbFun 3 Returns] 4
              eq_refl eq_refl eq_refl eq_refl)
    as (s1 & r & s2 & s3 & R & C1 & Fr & C & Cs & A & L & D & Again & Cs').
  exists s1, s2, s3. injection Fr as <-.
  split; [exact R|]. split; [exact C|].
  split; [rewrite Cs, C1; reflexivity|]. split; [exact A|].
  split; [now rewrite L|]. split; [now rewrite D|].
  split; [exact Again|]. rewrite Cs', Cs, C1. reflexivity.
Defined.



(** The token of [ann]: [aud] is [APP-1], the client id is [app-1]. *)
Lemma createUser_identity_witness :
  _createUser Demo.ann_token Demo.st = Return (Some Demo.ann) Demo.st
  /\ _extractIdToken Demo.ann_token = Some (profile Demo.ann)
  /\ (exists aud, profile Demo.ann !! "aud" = Some (VStr aud)
                  /\ toLowerCase aud = toLowerCase (clientId (config Demo.st)))
  /\ userName Demo.ann = VStr "ann@example.org".
Proof.
  split; [reflexivity|].
  destruct (createUser_identity (host := Demo.top_level_window) Demo.st Demo.st Demo.ann_token Demo.ann eq_refl)
    as (_ & E & A & N).
  split; [exact E|]. split; [exact A | exact N].
Defined.

(** A renewal response whose state is the second entry of the stored
    renewal list, and a response with a parameter named
    [hasOwnProperty]. *)
Lemma getRequestInfo_classification_witness :
  (is_Some (Demo.renewal_params !! "access_token")
   /\ is_Some (Demo.shadowed_params !! "error_description")
   /\ item_list Demo.renewing "AD_STATE_LOGIN" = []
   /\ item_list Demo.renewing "AD_STATE_RENEW" = ["st-8|r0"; "st-9|r1"; ""])
  /\ (exists ri s',
        getRequestInfo Demo.renewal_params Demo.renewing = Return ri s'
        /\ stateResponse ri = "st-9|r1"
        /\ stateMatch ri = true
        /\ requestType ri = RENEW_TOKEN)
  /\ getRequestInfo Demo.shadowed_params Demo.renewing
     = Throw TypeError Demo.renewing.
Proof.
  split.
  { split; [exists "tok-9"; reflexivity|]. split; [exists "d"; reflexivity|].
    split; reflexivity. }
  split.
  - pose proof (getRequestInfo_classification (host := Demo.top_level_window)
                  Demo.renewing Demo.renewal_params
                  (or_intror (or_introl (ex_intro _ "tok-9" eq_refl)))) as T.
    change (Demo.renewal_params !! "hasOwnProperty") with (@None string) in T.
    change (Demo.renewal_params !! "state") with (Some "st-9|r1") in T.
    cbv beta iota in T.
    destruct T as (ri & s' & R & _ & _ & S & _ & Renew & _).
    exists ri, s'. split; [exact R|]. split; [exact S|].
    apply Renew.
    + intros [].
    + right. left. reflexivity.
  - pose proof (getRequestInfo_classification (host := Demo.top_level_window)
                  Demo.renewing Demo.shadowed_params
                  (or_introl (ex_intro _ "d" eq_refl))) as T.
    change (Demo.shadowed_params !! "hasOwnProperty") with (Some "1") in T.
    exact T.
Defined.

(** C6, where the code departs from it.  In a top-level window
    ([window.parent] is the window itself) the state of a popup login sits
    in [_renewStates] only: the code consults that list and answers
    "match, LOGIN", where the claim (no nested context) says "no match,
    UNKNOWN".  A state found nowhere gets the tracked request type, not
    UNKNOWN.  And a response with a parameter named [hasOwnProperty] is
    not classified: the method raises. *)
Lemma getRequestInfo_fallback_outside_frames :
  (classification (getRequestInfo Demo.popup_params Demo.popup_login)
   = Some (true, LOGIN)
   /\ spec_classify_at Demo.popup_login Demo.popup_params = (false, UNKNOWN))
  /\ (classification (getRequestInfo (host := Demo.host ParentOther)
                        Demo.stray_params Demo.popup_login)
      = Some (false, LOGIN)
      /\ spec_classify_at (host := Demo.host ParentOther)
           Demo.popup_login Demo.stray_params = (false, UNKNOWN))
  /\ classification (getRequestInfo Demo.shadowed_params Demo.popup_login) = None.
Proof. repeat split; vm_compute; reflexivity. Qed.

(** C5, where the code departs from it: [.x.] has an empty header and an
    empty signature, and decodes. *)
Lemma decodeJwt_accepts_empty_header_and_signature :
  _decodeJwt ".x." = Some (CrackedToken "" "x" "")
  /\ spec_three_nonempty_segments ".x." = false
  /\ ~ (forall s, is_Some (_decodeJwt s) <-> spec_three_nonempty_segments s = true).
Proof.
  split; [reflexivity|]. split; [reflexivity|].
  intros C. destruct (C ".x.") as [C1 _].
  assert (spec_three_nonempty_segments ".x." = true) as E
    by (apply C1; eexists; reflexivity).
  discriminate E.
Qed.

(** Three error responses while a token for [r1] is cached: to a login,
    to the renewal of the token of [r1], and one with a parameter named
    [hasOwnProperty], at which the save step raises.  The cached token
    and its expiry read as before in all three. *)
Lemma saveTokenFromHash_error_frame_witness :
  (is_Some (parameters Demo.error_response !! "error_description")
   /\ is_Some (parameters Demo.renewal_error_response !! "error_description")
   /\ is_Some (parameters Demo.shadowed_response !! "error_description"))
  /\ (exists s',
        saveTokenFromHash Demo.error_response Demo.cached
        = Return Demo.error_response s'
        /\ _loginInProgress s' = false
        /\ untouched "AD_ACCESS_TOKEN_KEYr1" Demo.cached s'
        /\ untouched "AD_EXPIRATION_KEYr1" Demo.cached s'
        /\ untouched "AD_IDTOKEN" Demo.cached s'
        /\ item s' "AD_ERROR" = Some "access_denied"
        /\ item s' "AD_ERROR_DESCRIPTION" = Some "AADSTS65004: declined")
  /\ (exists s',
        saveTokenFromHash Demo.renewal_error_response
          (Demo.local_expiring "1700009999")
        = Return Demo.renewal_error_response s'
        /\ _loginInProgress s' = true
        /\ untouched "AD_ACCESS_TOKEN_KEYr1" (Demo.local_expiring "1700009999") s'
        /\ untouched "AD_EXPIRATION_KEYr1" (Demo.local_expiring "1700009999") s'
        /\ item s' "AD_ERROR" = Some "login_required"
        /\ item s' "AD_TOKEN_RENEW_STATUSr1" = Some "Completed")
  /\ (exists s',
        saveTokenFromHash Demo.shadowed_response Demo.cached = Throw TypeError s'
        /\ _loginInProgress s' = false
        /\ untouched "AD_ACCESS_TOKEN_KEYr1" Demo.cached s'
        /\ untouched "AD_EXPIRATION_KEYr1" Demo.cached s'
        /\ item s' "AD_ERROR" = Some "").
Proof.
  split.
  { split; [exists "AADSTS65004: declined"; reflexivity|].
    split; [exists "AADSTS50058: sign in"; reflexivity|].
    exists "d"; reflexivity. }
  split; [|split].
  - destruct (saveTokenFromHash_error_frame (host := Demo.top_level_window)
                Demo.cached Demo.error_response
                (ex_intro _ "AADSTS65004: declined" eq_refl))
      as (s' & O & _ & _ & T & I).
    change (parameters Demo.error_response !! "hasOwnProperty")
      with (@None string) in O.
    destruct O as (R & L & W).
    exists s'. split; [exact R|]. split; [exact L|].
    split; [exact (proj1 (T "r1"))|]. split; [exact (proj2 (T "r1"))|].
    split; [exact I|].
    destruct (W eq_refl) as (W1 & W2 & _). split; [exact W1 | exact W2].
  - destruct (saveTokenFromHash_error_frame (host := Demo.top_level_window)
                (Demo.local_expiring "1700009999") Demo.renewal_error_response
                (ex_intro _ "AADSTS50058: sign in" eq_refl))
      as (s' & O & _ & _ & T & _).
    change (parameters Demo.renewal_error_response !! "hasOwnProperty")
      with (@None string) in O.
    destruct O as (R & L & W).
    exists s'. split; [exact R|]. split; [exact L|].
    split; [exact (proj1 (T "r1"))|]. split; [exact (proj2 (T "r1"))|].
    destruct (W eq_refl) as (W1 & _ & W3). split; [exact W1 | exact W3].
  - destruct (saveTokenFromHash_error_frame (host := Demo.top_level_window)
                Demo.cached Demo.shadowed_response (ex_intro _ "d" eq_refl))
      as (s' & O & _ & _ & T & _).
    change (parameters Demo.shadowed_response !! "hasOwnProperty")
      with (Some "1") in O.
    destruct O as (R & L & W).
    exists s'. split; [exact R|]. split; [exact L|].
    split; [exact (proj1 (T "r1"))|]. split; [exact (proj2 (T "r1"))|].
    exact (proj1 (W eq_refl)).
Defined.

(** C7, at an input where the code departs from it.  A token is asked for
    the resource [https://graph.example] (response type [token]) with
    client id [app-1]: the URL carries [resource=app-1], and the requested
    resource appears only inside the state value. *)
Theorem getNavigateUrl_resource_is_client_id :
  _getNavigateUrl Demo.st "token" (Some "https://graph.example")
  = "https://login.microsoftonline.com/common/oauth2/authorize"
    +:+ "?response_type=id_token token"
    +:+ "&client_id=app-1"
    +:+ "&resource=app-1"
    +:+ "&redirect_uri=https%3A%2F%2Fapp.example%2Fcb"
    +:+ "&state=st-1%7Chttps%3A%2F%2Fgraph.example"
    +:+ "&client-request-id=c0ffee"
    +:+ "&x-client-SKU=Js&x-client-Ver=1.0.17".
Proof. reflexivity. Qed.



End Examples.
